(** * TLV: Type-Length-Value objects and lists of them

    A shallow embedding of the Go package [tlv] (file [tlv.go]) and the
    verification of its codec and list operations.

    The package works against the Go interfaces [io.Reader] and
    [io.Writer]; the embedding keeps them as type classes over an explicit
    stream state.  The pieces of the Go standard library the package calls
    ([io.ReadFull], [encoding/binary]'s fixed-size fast path with
    [binary.BigEndian], [bytes.Buffer], [bytes.Equal], the built-ins [make]
    and [copy]) are embedded next to it, each following its Go source.

    Go's integer widths are written out: [int32] values are [Z] wrapped by
    [int32], byte slices are [list byte]. *)

From Stdlib Require Import ZArith List Bool Lia Arith.
From coqutil Require Import Byte Z.bitblast.
From Equations Require Import Equations.
From Equations.Prop Require Import Logic.
Import ListNotations.
Local Open Scope Z_scope.

(** ** Outcomes and the stream monad *)

(** Go's [error] values the package can see.  [ErrIO] stands for any error of
    an underlying source or sink other than the sentinels. *)
Inductive error : Type :=
| EOF
| ErrUnexpectedEOF
| ErrShortBuffer
| ErrTLVRead
| ErrTLVWrite
| ErrTypeNotFound
| ErrIO (code : nat).

(** [err == io.EOF] and friends: comparison of error values. *)
Definition error_eqb (a b : error) : bool :=
  match a, b with
  | EOF, EOF => true
  | ErrUnexpectedEOF, ErrUnexpectedEOF => true
  | ErrShortBuffer, ErrShortBuffer => true
  | ErrTLVRead, ErrTLVRead => true
  | ErrTLVWrite, ErrTLVWrite => true
  | ErrTypeNotFound, ErrTypeNotFound => true
  | ErrIO m, ErrIO n => Nat.eqb m n
  | _, _ => false
  end.

(** [err == nil] *)
Definition is_nil {A : Type} (e : option A) : bool :=
  match e with None => true | Some _ => false end.

(** [err == e] for a possibly nil [err]. *)
Definition err_is (err : option error) (e : error) : bool :=
  match err with Some e' => error_eqb e' e | None => false end.

(** A call either returns, or the Go runtime panics, or the embedding's
    loop bound is exhausted (only loops of unknown length carry a bound). *)
Inductive outcome (A : Type) : Type :=
| Ret (a : A)
| Panic
| OutOfFuel.
Arguments Ret {A} a.
Arguments Panic {A}.
Arguments OutOfFuel {A}.

(** Code that runs against a stream of state [S]. *)
Definition exec (S A : Type) : Type := S -> outcome (A * S).

Definition ret {S A : Type} (a : A) : exec S A := fun s => Ret (a, s).

Definition bind {S A B : Type} (c : exec S A) (k : A -> exec S B) : exec S B :=
  fun s =>
    match c s with
    | Ret (a, s') => k a s'
    | Panic => Panic
    | OutOfFuel => OutOfFuel
    end.

Definition panic {S A : Type} : exec S A := fun _ => Panic.
Definition out_of_fuel {S A : Type} : exec S A := fun _ => OutOfFuel.

(** The result of a call that returned, passed through [f]. *)
Definition outcome_map {A B : Type} (f : A -> B) (x : outcome A) : outcome B :=
  match x with
  | Ret a => Ret (f a)
  | Panic => Panic
  | OutOfFuel => OutOfFuel
  end.

(** A call that does not touch the stream. *)
Definition lift {S A : Type} (x : outcome A) : exec S A :=
  fun s => outcome_map (fun a => (a, s)) x.

Declare Scope exec_scope.
Delimit Scope exec_scope with exec.
Notation "x <- c ;; k" := (bind c (fun x => k))
  (at level 61, c at next level, right associativity) : exec_scope.
Notation "' p <- c ;; k" := (bind c (fun x => let 'p := x in k))
  (at level 61, p pattern, c at next level, right associativity) : exec_scope.
Local Open Scope exec_scope.

(** ** Built-ins and integer conversions *)

(** [uint32(v)] and [int32(v)]: Go's wrapping conversions. *)
Definition uint32 (z : Z) : Z := z mod 2 ^ 32.
Definition int32 (z : Z) : Z := (z + 2 ^ 31) mod 2 ^ 32 - 2 ^ 31.

(** [len(s)] as a Go [int]. *)
Definition len_ {A : Type} (s : list A) : Z := Z.of_nat (length s).

(** [make([]byte, n)]: a zeroed slice; the runtime panics
    ("makeslice: len out of range") on a negative [n]. *)
Definition make (n : Z) : outcome (list byte) :=
  if n <? 0 then Panic else Ret (repeat Byte.x00 (Z.to_nat n)).

(** [copy(dst, src)]: overwrites the first [min(len(dst), len(src))]
    elements of [dst]; the result is the new content of [dst]. *)
Definition copy (dst src : list byte) : list byte :=
  let n := Nat.min (length dst) (length src) in
  firstn n src ++ skipn n dst.

(** ** Package io *)

(** [io.Reader]: [Read(p)] with [len(p) = n] returns the bytes it stored in
    [p[:k]] (so [k] is their number, at most [n] for a conforming reader)
    and an error. *)
Class Reader (R : Type) : Type :=
  reader_Read : nat -> R -> (list byte * option error) * R.

(** [io.Writer]: [Write(p)] returns the count [n] it reports and an error. *)
Class Writer (W : Type) : Type :=
  writer_Write : list byte -> W -> (Z * option error) * W.

Module io.

Definition Read {R} `{Reader R} (n : nat) : exec R (list byte * option error) :=
  fun r => Ret (reader_Read n r).

Definition Write {W} `{Writer W} (p : list byte) : exec W (Z * option error) :=
  fun w => Ret (writer_Write p w).

(** The loop of [io.ReadAtLeast]:
    [for n < min && err == nil { nn, err = r.Read(buf[n:]); n += nn }].
    [got] is [buf[:n]].  A reader may return [0, nil] for ever, so the
    loop carries a bound on its iterations. *)
Fixpoint ReadAtLeast_loop {R} `{Reader R} (fuel : nat) (size min : nat)
    (got : list byte) (err : option error) : exec R (list byte * option error) :=
  if (length got <? min)%nat && is_nil err then
    match fuel with
    | O => out_of_fuel
    | S fuel' =>
        '(data, err') <- Read (size - length got) ;;
        ReadAtLeast_loop fuel' size min (got ++ data) err'
    end
  else ret (got, err).

(** [io.ReadAtLeast(r, buf, min)] with [len(buf) = size]. *)
Definition ReadAtLeast {R} `{Reader R} (fuel : nat) (size min : nat)
    : exec R (list byte * option error) :=
  if (size <? min)%nat then ret ([], Some ErrShortBuffer)
  else
    '(got, err) <- ReadAtLeast_loop fuel size min [] None ;;
    if (min <=? length got)%nat then ret (got, None)
    else if (0 <? length got)%nat && err_is err EOF
         then ret (got, Some ErrUnexpectedEOF)
         else ret (got, err).

(** [io.ReadFull(r, buf)] *)
Definition ReadFull {R} `{Reader R} (fuel : nat) (size : nat)
    : exec R (list byte * option error) :=
  ReadAtLeast fuel size size.

End io.

(** ** Package encoding/binary, big-endian fixed-size values *)

Module binary.

(** [byte(v)]: truncation to the low 8 bits. *)
Definition byte_ (v : Z) : byte := byte.of_Z v.

(** [BigEndian.PutUint32(b, v)] *)
Definition BigEndian_PutUint32 (v : Z) : list byte :=
  [ byte_ (Z.shiftr v 24); byte_ (Z.shiftr v 16); byte_ (Z.shiftr v 8); byte_ v ].

(** [BigEndian.Uint32(b)]:
    [uint32(b[3]) | uint32(b[2])<<8 | uint32(b[1])<<16 | uint32(b[0])<<24] *)
Definition BigEndian_Uint32 (b : list byte) : Z :=
  let at_ i := byte.unsigned (nth i b Byte.x00) in
  Z.lor (Z.lor (Z.lor (at_ 3%nat) (Z.shiftl (at_ 2%nat) 8))
               (Z.shiftl (at_ 1%nat) 16))
        (Z.shiftl (at_ 0%nat) 24).

(** [binary.Read(r, binary.BigEndian, &typ)] for [typ byte]: the value read
    (zero when the read fails) and the error of [io.ReadFull]. *)
Definition Read_byte {R} `{Reader R} (fuel : nat) : exec R (byte * option error) :=
  '(bs, err) <- io.ReadFull fuel 1 ;;
  match err with
  | Some e => ret (Byte.x00, Some e)
  | None => ret (nth 0 bs Byte.x00, None)
  end.

(** [binary.Read(r, binary.BigEndian, &length)] for [length int32]. *)
Definition Read_int32 {R} `{Reader R} (fuel : nat) : exec R (Z * option error) :=
  '(bs, err) <- io.ReadFull fuel 4 ;;
  match err with
  | Some e => ret (0, Some e)
  | None => ret (int32 (BigEndian_Uint32 bs), None)
  end.

(** [binary.Write(w, binary.BigEndian, typ)] for [typ byte]:
    one [w.Write] of the encoded value, whose count is dropped. *)
Definition Write_byte {W} `{Writer W} (v : byte) : exec W (option error) :=
  '(_, err) <- io.Write [v] ;;
  ret err.

(** [binary.Write(w, binary.BigEndian, length)] for [length int32]. *)
Definition Write_int32 {W} `{Writer W} (v : Z) : exec W (option error) :=
  '(_, err) <- io.Write (BigEndian_PutUint32 (uint32 v)) ;;
  ret err.

End binary.

(** ** Package bytes *)

Module bytes.

(** [bytes.Equal(a, b)]: same length and same bytes; a nil slice equals an
    empty one. *)
Fixpoint Equal (a b : list byte) : bool :=
  match a, b with
  | [], [] => true
  | x :: a', y :: b' => Byte.eqb x y && Equal a' b'
  | _, _ => false
  end.

(** [bytes.Buffer]: the unread bytes [buf[off:]]. *)
Record Buffer : Type := NewBuffer { Bytes : list byte }.

(** [Buffer.Read]: on an empty buffer [0, nil] when [len(p) == 0] and
    [0, io.EOF] otherwise; else [copy(p, b.buf[b.off:])]. *)
Definition Buffer_Read (n : nat) (b : Buffer) : (list byte * option error) * Buffer :=
  match Bytes b with
  | [] => if (n =? 0)%nat then (([], None), b) else (([], Some EOF), b)
  | _ => ((firstn n (Bytes b), None), NewBuffer (skipn n (Bytes b)))
  end.

(** [Buffer.Write]: appends all of [p]; returns [len(p), nil]. *)
Definition Buffer_Write (p : list byte) (b : Buffer) : (Z * option error) * Buffer :=
  ((len_ p, None), NewBuffer (Bytes b ++ p)).

End bytes.

#[export] Instance Buffer_Reader : Reader bytes.Buffer := bytes.Buffer_Read.
#[export] Instance Buffer_Writer : Writer bytes.Buffer := bytes.Buffer_Write.

(** ** TLV objects *)

(** [type object struct { typ byte; len int32; val []byte }] *)
Record object : Type := mkObject { typ : byte; len : Z; val : list byte }.

(** The accessors of the [TLV] interface. *)
Definition Type_ (o : object) : byte := typ o.
Definition Length (o : object) : Z := len o.
Definition Value (o : object) : list byte := val o.

(** [Equal(tlv1, tlv2 TLV)]; [None] is the nil interface value. *)
Definition Equal (tlv1 tlv2 : option object) : bool :=
  match tlv1 with
  | None => is_nil tlv2
  | Some o1 =>
      match tlv2 with
      | None => false
      | Some o2 =>
          if negb (Byte.eqb (Type_ o1) (Type_ o2)) then false
          else if negb (Length o1 =? Length o2) then false
          else if negb (bytes.Equal (Value o1) (Value o2)) then false
          else true
      end
  end.

(** [New(typ, val)]: the length is [int32(len(val))], the value a fresh
    slice of that length filled by [copy]. *)
Definition New (typ : byte) (val : list byte) : outcome object :=
  let l := int32 (len_ val) in
  outcome_map (fun buf => mkObject typ l (copy buf val)) (make l).

(** [ReadObject(r io.Reader) (TLV, error)] *)
Definition ReadObject {R} `{Reader R} (fuel : nat)
    : exec R (option object * option error) :=
  '(typ, err) <- binary.Read_byte fuel ;;
  match err with
  | Some e => ret (None, Some e)
  | None =>
      '(length, err) <- binary.Read_int32 fuel ;;
      match err with
      | Some e => ret (None, Some e)
      | None =>
          buf <- lift (make length) ;;
          '(data, err) <- io.Read (List.length buf) ;;
          let tlv := mkObject typ length (copy buf data) in
          match err with
          | Some e => ret (None, Some e)
          | None =>
              if negb (int32 (len_ data) =? Length tlv)
              then ret (Some tlv, Some ErrTLVRead)
              else ret (Some tlv, None)
          end
      end
  end.

(** [WriteObject(tlv TLV, w io.Writer) error] *)
Definition WriteObject {W} `{Writer W} (tlv : object) : exec W (option error) :=
  err <- binary.Write_byte (Type_ tlv) ;;
  match err with
  | Some e => ret (Some e)
  | None =>
      err <- binary.Write_int32 (Length tlv) ;;
      match err with
      | Some e => ret (Some e)
      | None =>
          '(n, err) <- io.Write (Value tlv) ;;
          match err with
          | Some e => ret (Some e)
          | None =>
              if negb (int32 n =? Length tlv) then ret (Some ErrTLVWrite)
              else ret None
          end
      end
  end.

(** [FromBytes(data)]: [ReadObject] over [bytes.NewBuffer(data)]. *)
Definition FromBytes (fuel : nat) (data : list byte)
    : outcome (option object * option error) :=
  outcome_map fst (ReadObject fuel (bytes.NewBuffer data)).

(** [ToBytes(tlv)]: [WriteObject] into an empty [bytes.Buffer]; the buffer's
    bytes are returned together with the error. *)
Definition ToBytes (tlv : object) : outcome (list byte * option error) :=
  outcome_map (fun '(err, objBuf) => (bytes.Bytes objBuf, err))
    (WriteObject tlv (bytes.NewBuffer [])).

(** ** Lists of TLV objects *)

(** [type List struct { objects *list.List }]: the elements of the
    doubly-linked list, front first.  The elements are [*object] values, as
    every method's type assertion on [e.Value] requires. *)
Record List : Type := mkList { objects : list object }.

(** [NewList()] *)
Definition NewList : List := mkList [].

(** [tl.objects.PushBack(v)] *)
Definition PushBack (tl : List) (v : object) : List := mkList (objects tl ++ [v]).

(** The inner scan of [Remove] and [RemoveObject]:
    [for e := Front(); e != nil; e = e.Next() { if match(e) { Remove(e); removed++; break } }].
    [Some] is the list after the removal ([removed == 1]), [None] a scan
    that reached the end ([removed == 0]). *)
Fixpoint remove_first (matches : object -> bool) (es : list object)
    : option (list object) :=
  match es with
  | [] => None
  | e :: rest =>
      if matches e then Some rest
      else match remove_first matches rest with
           | Some rest' => Some (e :: rest')
           | None => None
           end
  end.

(** The outer [for { ... if removed == 0 { break }; totalRemoved += removed }]. *)
Equations? remove_loop (matches : object -> bool) (es : list object)
    (totalRemoved : Z) : Z * list object by wf (length es) lt :=
  remove_loop matches es totalRemoved with inspect (remove_first matches es) => {
    | exist _ (Some es') _ => remove_loop matches es' (totalRemoved + 1);
    | exist _ None _ => (totalRemoved, es) }.
Proof.
  clear remove_loop totalRemoved.
  revert es' e; induction es as [|x xs IH]; simpl; intros es' E; [discriminate|].
  destruct (matches x).
  - inversion E; subst; lia.
  - destruct (remove_first matches xs) as [r|] eqn:Er; [|discriminate].
    inversion E; subst; simpl. specialize (IH r eq_refl). lia.
Qed.

Module TList.

(** [(tl *List) Length() int32] *)
Definition Length (tl : List) : Z := int32 (len_ (objects tl)).

(** [(tl *List) Get(typ byte) (TLV, error)] *)
Fixpoint Get_loop (es : list object) (typ : byte) : option object * option error :=
  match es with
  | [] => (None, Some ErrTypeNotFound)
  | e :: rest =>
      if Byte.eqb (Type_ e) typ then (Some e, None) else Get_loop rest typ
  end.

Definition Get (tl : List) (typ : byte) : option object * option error :=
  Get_loop (objects tl) typ.

(** [(tl *List) GetAll(typ byte) []TLV] *)
Definition GetAll (tl : List) (typ : byte) : list object :=
  fold_left
    (fun ts e => if Byte.eqb (Type_ e) typ then ts ++ [e] else ts)
    (objects tl) [].

(** [(tl *List) Remove(typ byte) int]: the count and the list afterwards. *)
Definition Remove (tl : List) (typ : byte) : Z * List :=
  let '(totalRemoved, es) :=
    remove_loop (fun e => Byte.eqb (Type_ e) typ) (objects tl) 0 in
  (totalRemoved, mkList es).

(** [(tl *List) RemoveObject(obj TLV) int] *)
Definition RemoveObject (tl : List) (obj : option object) : Z * List :=
  let '(totalRemoved, es) :=
    remove_loop (fun e => Equal (Some e) obj) (objects tl) 0 in
  (totalRemoved, mkList es).

(** [(tl *List) Add(typ byte, value []byte)] *)
Definition Add (tl : List) (typ : byte) (value : list byte) : outcome List :=
  outcome_map (PushBack tl) (New typ value).

(** [(tl *List) AddObject(obj TLV)] *)
Definition AddObject (tl : List) (obj : object) : List := PushBack tl obj.

(** [(tl *List) Write(w io.Writer) error] *)
Fixpoint Write_loop {W} `{Writer W} (es : list object) : exec W (option error) :=
  match es with
  | [] => ret None
  | e :: rest =>
      err <- WriteObject e ;;
      match err with
      | Some x => ret (Some x)
      | None => Write_loop rest
      end
  end.

Definition Write {W} `{Writer W} (tl : List) : exec W (option error) :=
  Write_loop (objects tl).

End TList.

(** The [for { if tlv, err = ReadObject(r); err != nil { break }; PushBack(tlv) }]
    of [Read]; [n] bounds the iterations.  [ReadObject] returns no nil object
    together with a nil error, so the list receives [*object] values only. *)
Fixpoint Read_loop {R} `{Reader R} (fuel n : nat) (tl : List)
    : exec R (List * option error) :=
  match n with
  | O => out_of_fuel
  | S n' =>
      '(tlv, err) <- ReadObject fuel ;;
      match err with
      | Some e => ret (tl, Some e)
      | None =>
          match tlv with
          | Some o => Read_loop fuel n' (PushBack tl o)
          | None => panic
          end
      end
  end.

(** [Read(r io.Reader)], returning the list and the error. *)
Definition Read {R} `{Reader R} (fuel : nat) : exec R (List * option error) :=
  '(tl, err) <- Read_loop fuel fuel NewList ;;
  if err_is err EOF then ret (tl, None) else ret (tl, err).

(** ** Sinks for the verification of writes *)

(** A sink that records every [Write] request, in order, before handing it
    to the sink underneath. *)
Record Tap (W : Type) : Type := mkTap { sink : W; requests : list (list byte) }.
Arguments mkTap {W} sink requests.
Arguments sink {W} t.
Arguments requests {W} t.

#[export] Instance Tap_Writer {W} `{Writer W} : Writer (Tap W) :=
  fun p t =>
    let '(res, w') := writer_Write p (sink t) in
    (res, mkTap w' (requests t ++ [p])).

(** A sink that answers its [Write] calls from a script of [(n, err)]
    results, and accepts everything once the script is used up. *)
Record Scripted : Type := mkScripted { script : list (Z * option error) }.

#[export] Instance Scripted_Writer : Writer Scripted :=
  fun p s =>
    match script s with
    | [] => ((len_ p, None), s)
    | res :: rest => (res, mkScripted rest)
    end.

(** A source that answers its [Read] calls from a script of [(bytes, err)]
    results, and reports [io.EOF] once the script is used up. *)
Record ScriptedReader : Type :=
  mkScriptedReader { replies : list (list byte * option error) }.

#[export] Instance ScriptedReader_Reader : Reader ScriptedReader :=
  fun _ s =>
    match replies s with
    | [] => (([], Some EOF), s)
    | res :: rest => (res, mkScriptedReader rest)
    end.

(** ** The wire format *)

(** The encoding of one object as the wire format lays it out: the type
    byte, the length as four big-endian bytes, the value bytes. *)
Definition wire (o : object) : list byte :=
  typ o :: binary.BigEndian_PutUint32 (uint32 (len o)) ++ val o.

(** [len] has Go type [int32]. *)
Definition int32_typed (z : Z) : Prop := - 2 ^ 31 <= z < 2 ^ 31.

(** The data invariant of an object: its [len], an [int32], is the length
    of [val]. *)
Definition well_formed (o : object) : Prop :=
  int32_typed (len o) /\ len o = len_ (val o).

(** * Verification *)

(** ** Integer conversions and byte order *)

Lemma int32_range z : - 2 ^ 31 <= int32 z < 2 ^ 31.
Proof. unfold int32. pose proof (Z.mod_pos_bound (z + 2 ^ 31) (2 ^ 32)). lia. Qed.

Lemma int32_small z : - 2 ^ 31 <= z < 2 ^ 31 -> int32 z = z.
Proof. intros Hz. unfold int32. rewrite Z.mod_small; lia. Qed.

Lemma int32_uint32 z : int32 (uint32 z) = int32 z.
Proof.
  unfold int32, uint32.
  rewrite Zplus_mod_idemp_l. reflexivity.
Qed.

Lemma uint32_range z : 0 <= uint32 z < 2 ^ 32.
Proof. unfold uint32. apply Z.mod_pos_bound. lia. Qed.

Lemma length_PutUint32 v : length (binary.BigEndian_PutUint32 v) = 4%nat.
Proof. reflexivity. Qed.

Lemma Uint32_PutUint32 v :
  binary.BigEndian_Uint32 (binary.BigEndian_PutUint32 v) = v mod 2 ^ 32.
Proof.
  unfold binary.BigEndian_Uint32, binary.BigEndian_PutUint32, binary.byte_.
  cbn [nth]. rewrite !byte.unsigned_of_Z. unfold byte.wrap.
  rewrite <- !Z.land_ones by lia.
  Z.bitblast.
Qed.

Lemma decode_encode_int32 v :
  - 2 ^ 31 <= v < 2 ^ 31 ->
  int32 (binary.BigEndian_Uint32 (binary.BigEndian_PutUint32 (uint32 v))) = v.
Proof.
  intros Hv. rewrite Uint32_PutUint32.
  change ((uint32 v) mod 2 ^ 32) with (uint32 (uint32 v)).
  rewrite !int32_uint32. apply int32_small, Hv.
Qed.

(** ** Built-ins *)

Lemma copy_length dst src : length (copy dst src) = length dst.
Proof.
  unfold copy. rewrite length_app, length_firstn, length_skipn. lia.
Qed.

Lemma copy_full dst src : length dst = length src -> copy dst src = src.
Proof.
  intros E. unfold copy. rewrite E, Nat.min_id, firstn_all.
  rewrite skipn_all2 by lia. apply app_nil_r.
Qed.

Lemma bytes_Equal_eq a b : bytes.Equal a b = true <-> a = b.
Proof.
  revert b; induction a as [|x a IH]; intros [|y b]; simpl;
    try (split; [discriminate | congruence]); [tauto|].
  rewrite andb_true_iff, IH. split.
  - intros [Hx ->]. apply Byte.byte_dec_bl in Hx. congruence.
  - intros E; inversion E; subst. split; [apply Byte.byte_dec_lb|]; reflexivity.
Qed.

Lemma Byte_eqb_eq x y : Byte.eqb x y = true <-> x = y.
Proof. split; [apply Byte.byte_dec_bl | apply Byte.byte_dec_lb]. Qed.

(** ** Objects keep the data invariant *)

Lemma New_in_range t v :
  len_ v < 2 ^ 31 -> New t v = Ret (mkObject t (len_ v) v).
Proof.
  intros Hv. unfold New, make, len_ in *.
  rewrite int32_small by lia.
  destruct (Z.ltb_spec (Z.of_nat (length v)) 0) as [?|_]; [lia|].
  cbn [outcome_map]. rewrite copy_full; [reflexivity|].
  rewrite repeat_length. lia.
Qed.

Lemma New_well_formed t v o : New t v = Ret o -> well_formed o.
Proof.
  unfold New, make.
  destruct (Z.ltb_spec (int32 (len_ v)) 0) as [?|Hl]; [discriminate|].
  cbn [outcome_map]. intros E; inversion E; subst; clear E.
  unfold well_formed; cbn [len val]. split; [apply int32_range|].
  unfold len_ at 2. rewrite copy_length, repeat_length. lia.
Qed.

Lemma Read_int32_typed {R} `{Reader R} fuel (r r' : R) l :
  binary.Read_int32 fuel r = Ret ((l, None), r') -> int32_typed l.
Proof.
  unfold binary.Read_int32, bind.
  destruct (io.ReadFull fuel 4 r) as [[[bs [e|]] r1]| |]; try discriminate.
  unfold ret. intros E; inversion E; subst. apply int32_range.
Qed.

Lemma ReadObject_well_formed {R} `{Reader R} fuel (r r' : R) o err :
  ReadObject fuel r = Ret ((Some o, err), r') -> well_formed o.
Proof.
  unfold ReadObject, bind.
  destruct (binary.Read_byte fuel r) as [[[t [e|]] r1]| |]; try discriminate.
  destruct (binary.Read_int32 fuel r1) as [[[l [e|]] r2]| |] eqn:El; try discriminate.
  apply Read_int32_typed in El.
  unfold lift, make.
  destruct (Z.ltb_spec l 0) as [?|Hl]; [discriminate|].
  cbn [outcome_map]. unfold ret, io.Read.
  destruct (reader_Read _ r2) as [[data [e|]] r3]; [discriminate|].
  assert (W : well_formed (mkObject t l (copy (repeat Byte.x00 (Z.to_nat l)) data))).
  { unfold well_formed, len_; cbn [len val]. split; [exact El|].
    rewrite copy_length, repeat_length. lia. }
  destruct (negb _); intros E; inversion E; subst; exact W.
Qed.

(** [ReadObject] never returns a nil object with a nil error. *)
Lemma ReadObject_nil_error {R} `{Reader R} fuel (r r' : R) :
  ReadObject fuel r <> Ret ((None, None), r').
Proof.
  unfold ReadObject, bind.
  destruct (binary.Read_byte fuel r) as [[[t [e|]] r1]| |]; try discriminate.
  destruct (binary.Read_int32 fuel r1) as [[[l [e|]] r2]| |]; try discriminate.
  unfold lift, make. destruct (l <? 0); [discriminate|].
  cbn [outcome_map]. unfold ret, io.Read.
  destruct (reader_Read _ r2) as [[data [e|]] r3]; [discriminate|].
  destruct (negb _); discriminate.
Qed.

(** ** Reading from a [bytes.Buffer] *)

Lemma bind_Ret {S A B} (c : exec S A) (k : A -> exec S B) s a s' :
  c s = Ret (a, s') -> bind c k s = k a s'.
Proof. intros E. unfold bind. rewrite E. reflexivity. Qed.

Lemma ReadAtLeast_loop_eq {R} `{Reader R} fuel size min got err :
  io.ReadAtLeast_loop fuel size min got err =
  if (length got <? min)%nat && is_nil err then
    match fuel with
    | O => out_of_fuel
    | S fuel' =>
        bind (io.Read (size - length got))
          (fun x => let '(data, err') := x in
                    io.ReadAtLeast_loop fuel' size min (got ++ data) err')
    end
  else ret (got, err).
Proof. destruct fuel; reflexivity. Qed.

(** A read of [n] bytes from a buffer that holds at least [n] returns them. *)
Lemma Buffer_Read_prefix bs rest :
  reader_Read (length bs) (bytes.NewBuffer (bs ++ rest)) =
  ((bs, None), bytes.NewBuffer rest).
Proof.
  unfold reader_Read, Buffer_Reader, bytes.Buffer_Read. cbn [bytes.Bytes].
  destruct (bs ++ rest) as [|x xs] eqn:E.
  - apply app_eq_nil in E. destruct E; subst. reflexivity.
  - rewrite <- E. rewrite firstn_app, Nat.sub_diag, firstn_all, firstn_O, app_nil_r.
    rewrite skipn_app, Nat.sub_diag, skipn_all. reflexivity.
Qed.

Lemma Buffer_Read_empty n :
  (0 < n)%nat ->
  reader_Read n (bytes.NewBuffer []) = (([], Some EOF), bytes.NewBuffer []).
Proof.
  intros Hn. unfold reader_Read, Buffer_Reader, bytes.Buffer_Read. cbn [bytes.Bytes].
  destruct (Nat.eqb_spec n 0); [lia | reflexivity].
Qed.

(** A read of more bytes than a non-empty buffer holds returns what is there. *)
Lemma Buffer_Read_short n bs :
  (0 < length bs <= n)%nat ->
  reader_Read n (bytes.NewBuffer bs) = ((bs, None), bytes.NewBuffer []).
Proof.
  intros Hn. unfold reader_Read, Buffer_Reader, bytes.Buffer_Read. cbn [bytes.Bytes].
  destruct bs as [|x xs]; [simpl in Hn; lia|].
  rewrite firstn_all2, skipn_all2 by lia. reflexivity.
Qed.

Lemma ReadFull_Buffer_enough fuel bs rest :
  (0 < fuel)%nat -> (0 < length bs)%nat ->
  io.ReadFull fuel (length bs) (bytes.NewBuffer (bs ++ rest)) =
  Ret ((bs, None), bytes.NewBuffer rest).
Proof.
  intros Hf Hn. unfold io.ReadFull, io.ReadAtLeast.
  rewrite Nat.ltb_irrefl.
  destruct fuel as [|fuel]; [lia|].
  erewrite bind_Ret.
  2:{ rewrite ReadAtLeast_loop_eq. cbn [length is_nil].
      destruct (Nat.ltb_spec 0 (length bs)) as [_|?]; [|lia]. cbn [andb].
      erewrite bind_Ret.
      2:{ unfold io.Read. rewrite Nat.sub_0_r, Buffer_Read_prefix. reflexivity. }
      cbn beta iota. rewrite ReadAtLeast_loop_eq. cbn [app].
      rewrite Nat.ltb_irrefl. reflexivity. }
  cbn beta iota. rewrite Nat.leb_refl. reflexivity.
Qed.

Lemma ReadFull_Buffer_empty fuel n :
  (0 < fuel)%nat -> (0 < n)%nat ->
  io.ReadFull fuel n (bytes.NewBuffer []) =
  Ret (([], Some EOF), bytes.NewBuffer []).
Proof.
  intros Hf Hn. unfold io.ReadFull, io.ReadAtLeast.
  rewrite Nat.ltb_irrefl.
  destruct fuel as [|fuel]; [lia|].
  erewrite bind_Ret.
  2:{ rewrite ReadAtLeast_loop_eq. cbn [length is_nil].
      destruct (Nat.ltb_spec 0 n) as [_|?]; [|lia]. cbn [andb].
      erewrite bind_Ret.
      2:{ unfold io.Read. rewrite Nat.sub_0_r, Buffer_Read_empty by lia. reflexivity. }
      cbn beta iota. rewrite ReadAtLeast_loop_eq. cbn [app length is_nil].
      rewrite andb_false_r. reflexivity. }
  cbn beta iota. cbn [length].
  destruct (Nat.leb_spec n 0) as [?|_]; [lia|]. reflexivity.
Qed.

(** Fewer bytes than asked for, but some: the second [Read] meets the end
    of the buffer and [io.ReadFull] reports [io.ErrUnexpectedEOF]. *)
Lemma ReadFull_Buffer_partial fuel n bs :
  (2 <= fuel)%nat -> (0 < length bs < n)%nat ->
  io.ReadFull fuel n (bytes.NewBuffer bs) =
  Ret ((bs, Some ErrUnexpectedEOF), bytes.NewBuffer []).
Proof.
  intros Hf Hn. unfold io.ReadFull, io.ReadAtLeast.
  rewrite Nat.ltb_irrefl.
  destruct fuel as [|[|fuel]]; [lia|lia|].
  erewrite bind_Ret.
  2:{ rewrite ReadAtLeast_loop_eq. cbn [length is_nil].
      destruct (Nat.ltb_spec 0 n) as [_|?]; [|lia]. cbn [andb].
      erewrite bind_Ret.
      2:{ unfold io.Read. rewrite Nat.sub_0_r, Buffer_Read_short by lia. reflexivity. }
      cbn beta iota. rewrite ReadAtLeast_loop_eq. cbn [app is_nil].
      destruct (Nat.ltb_spec (length bs) n) as [_|?]; [|lia]. cbn [andb].
      erewrite bind_Ret.
      2:{ unfold io.Read. rewrite Buffer_Read_empty by lia. reflexivity. }
      cbn beta iota. rewrite ReadAtLeast_loop_eq. cbn [is_nil].
      rewrite andb_false_r, app_nil_r. reflexivity. }
  cbn beta iota.
  destruct (Nat.leb_spec n (length bs)) as [?|_]; [lia|].
  destruct (Nat.ltb_spec 0 (length bs)) as [_|?]; [|lia].
  reflexivity.
Qed.

Lemma Read_byte_Buffer fuel t rest :
  (0 < fuel)%nat ->
  binary.Read_byte fuel (bytes.NewBuffer (t :: rest)) =
  Ret ((t, None), bytes.NewBuffer rest).
Proof.
  intros Hf. unfold binary.Read_byte.
  erewrite bind_Ret.
  2:{ apply (ReadFull_Buffer_enough fuel [t] rest); simpl; lia. }
  reflexivity.
Qed.

Lemma Read_int32_Buffer fuel v rest :
  (0 < fuel)%nat -> - 2 ^ 31 <= v < 2 ^ 31 ->
  binary.Read_int32 fuel
    (bytes.NewBuffer (binary.BigEndian_PutUint32 (uint32 v) ++ rest)) =
  Ret ((v, None), bytes.NewBuffer rest).
Proof.
  intros Hf Hv. unfold binary.Read_int32.
  erewrite bind_Ret.
  2:{ apply (ReadFull_Buffer_enough fuel (binary.BigEndian_PutUint32 (uint32 v)) rest);
      [lia | rewrite length_PutUint32; lia]. }
  cbn beta iota. rewrite decode_encode_int32 by exact Hv. reflexivity.
Qed.

Lemma well_formed_range o :
  well_formed o -> 0 <= len o < 2 ^ 31 /\ len o = Z.of_nat (length (val o)).
Proof. unfold well_formed, int32_typed, len_. lia. Qed.

(** Decoding the wire form of an object gives the object back and leaves
    what follows it in the buffer. *)
Lemma ReadObject_wire fuel o rest :
  (0 < fuel)%nat -> well_formed o ->
  ReadObject fuel (bytes.NewBuffer (wire o ++ rest)) =
  Ret ((Some o, None), bytes.NewBuffer rest).
Proof.
  intros Hf Hw. apply well_formed_range in Hw.
  destruct o as [t l v]. cbn [typ len val] in *.
  unfold ReadObject, wire. cbn [typ len val app].
  erewrite bind_Ret by (apply Read_byte_Buffer; exact Hf).
  cbn beta iota. rewrite <- app_assoc.
  erewrite bind_Ret by (apply Read_int32_Buffer; [exact Hf | lia]).
  cbn beta iota. unfold lift, make.
  destruct (Z.ltb_spec l 0) as [?|_]; [lia|].
  erewrite bind_Ret by reflexivity.
  rewrite repeat_length.
  replace (Z.to_nat l) with (length v) by lia.
  erewrite bind_Ret.
  2:{ unfold io.Read. rewrite Buffer_Read_prefix. reflexivity. }
  cbn beta iota. rewrite copy_full by apply repeat_length.
  unfold Length, len_; cbn [len].
  rewrite int32_small by lia.
  destruct (Z.eqb_spec (Z.of_nat (length v)) l) as [_|?]; [|lia].
  reflexivity.
Qed.

(** ** Writing into a [bytes.Buffer] *)

Lemma WriteObject_Buffer o b :
  WriteObject o (bytes.NewBuffer b) =
  Ret (if int32 (len_ (val o)) =? len o then None else Some ErrTLVWrite,
       bytes.NewBuffer (b ++ wire o)).
Proof.
  unfold WriteObject, binary.Write_byte, binary.Write_int32, io.Write, bind, ret,
    writer_Write, Buffer_Writer, bytes.Buffer_Write, wire, Type_, Length, Value.
  cbn [bytes.Bytes].
  rewrite <- !app_assoc. cbn [app].
  destruct (int32 (len_ (val o)) =? len o); reflexivity.
Qed.

Lemma WriteObject_Buffer_well_formed o b :
  well_formed o ->
  WriteObject o (bytes.NewBuffer b) = Ret (None, bytes.NewBuffer (b ++ wire o)).
Proof.
  intros [Hr Hw]. rewrite WriteObject_Buffer.
  rewrite <- Hw, int32_small by exact Hr.
  rewrite Z.eqb_refl. reflexivity.
Qed.

Lemma ToBytes_well_formed o : well_formed o -> ToBytes o = Ret (wire o, None).
Proof.
  intros Hw. unfold ToBytes.
  rewrite WriteObject_Buffer_well_formed by exact Hw. reflexivity.
Qed.

Lemma FromBytes_wire fuel o :
  (0 < fuel)%nat -> well_formed o -> FromBytes fuel (wire o) = Ret (Some o, None).
Proof.
  intros Hf Hw. unfold FromBytes.
  rewrite <- (app_nil_r (wire o)).
  rewrite ReadObject_wire by assumption. reflexivity.
Qed.

Lemma Equal_iff e r :
  Equal (Some e) (Some r) = true <->
  typ e = typ r /\ len e = len r /\ val e = val r.
Proof.
  unfold Equal, Type_, Length, Value.
  destruct (Byte.eqb (typ e) (typ r)) eqn:Et; cbn [negb].
  - apply Byte_eqb_eq in Et.
    destruct (Z.eqb_spec (len e) (len r)) as [El|El]; cbn [negb].
    + destruct (bytes.Equal (val e) (val r)) eqn:Ev; cbn [negb].
      * apply bytes_Equal_eq in Ev. tauto.
      * split; [discriminate|]. intros (_ & _ & Hv).
        apply bytes_Equal_eq in Hv. congruence.
    + split; [discriminate | tauto].
  - split; [discriminate|]. intros (Ht & _).
    apply Byte_eqb_eq in Ht. congruence.
Qed.

Lemma Equal_eq e r : Equal (Some e) (Some r) = true <-> e = r.
Proof.
  rewrite Equal_iff. destruct e, r; cbn [typ len val].
  split; [intros (-> & -> & ->); reflexivity | intros E; inversion E; auto].
Qed.

(** ** The codec *)

(** C1 (round trip).  For every type byte and every value whose length fits
    a signed 32-bit integer, [New] returns an object, [ToBytes] encodes it
    without error, and [FromBytes] on those bytes succeeds with an object
    that is [Equal] to the original: same type, same length, same value
    bytes. *)
Theorem round_trip_New_ToBytes_FromBytes (fuel : nat) (t : byte) (v : list byte) :
  (0 < fuel)%nat ->
  len_ v <= 2 ^ 31 - 1 ->
  exists o data o',
    New t v = Ret o /\
    ToBytes o = Ret (data, None) /\
    FromBytes fuel data = Ret (Some o', None) /\
    Equal (Some o') (Some o) = true /\
    typ o' = typ o /\ len o' = len o /\ val o' = val o /\
    typ o = t /\ len o = len_ v /\ val o = v.
Proof.
  intros Hf Hv.
  assert (Hn : New t v = Ret (mkObject t (len_ v) v)) by (apply New_in_range; lia).
  pose proof (New_well_formed _ _ _ Hn) as Hw.
  exists (mkObject t (len_ v) v), (wire (mkObject t (len_ v) v)), (mkObject t (len_ v) v).
  split; [exact Hn|].
  split; [apply ToBytes_well_formed, Hw|].
  split; [apply FromBytes_wire; assumption|].
  split; [apply Equal_eq; reflexivity|].
  cbn [typ len val]. repeat split.
Qed.

Lemma round_trip_New_ToBytes_FromBytes_witness :
  (0 < 1)%nat /\
  len_ [Byte.x02; Byte.x03] <= 2 ^ 31 - 1 /\
  exists o data o',
    New Byte.x01 [Byte.x02; Byte.x03] = Ret o /\
    ToBytes o = Ret (data, None) /\
    FromBytes 1 data = Ret (Some o', None) /\
    Equal (Some o') (Some o) = true /\
    typ o' = typ o /\ len o' = len o /\ val o' = val o /\
    typ o = Byte.x01 /\ len o = len_ [Byte.x02; Byte.x03] /\
    val o = [Byte.x02; Byte.x03].
Proof.
  split; [lia|]. split; [unfold len_; simpl; lia|].
  apply (round_trip_New_ToBytes_FromBytes 1 Byte.x01 [Byte.x02; Byte.x03]).
  - lia.
  - unfold len_; simpl; lia.
Defined.

(** C5 (zero-length value).  A record built from an empty value encodes to
    exactly five bytes, the type byte and four zero length bytes; decoding
    those five bytes succeeds, with no error, and gives a record of length
    0 with an empty value. *)
Theorem zero_length_value (fuel : nat) (t : byte) :
  (0 < fuel)%nat ->
  exists o data o',
    New t [] = Ret o /\
    ToBytes o = Ret (data, None) /\
    data = [t; Byte.x00; Byte.x00; Byte.x00; Byte.x00] /\
    length data = 5%nat /\
    FromBytes fuel data = Ret (Some o', None) /\
    typ o' = t /\ len o' = 0 /\ val o' = [].
Proof.
  intros Hf.
  assert (Hn : New t [] = Ret (mkObject t 0 [])) by reflexivity.
  pose proof (New_well_formed _ _ _ Hn) as Hw.
  exists (mkObject t 0 []), (wire (mkObject t 0 [])), (mkObject t 0 []).
  split; [exact Hn|].
  split; [apply ToBytes_well_formed, Hw|].
  split; [reflexivity|].
  split; [reflexivity|].
  split; [apply FromBytes_wire; assumption|].
  repeat split.
Qed.

Lemma zero_length_value_witness :
  (0 < 1)%nat /\
  exists o data o',
    New Byte.x07 [] = Ret o /\
    ToBytes o = Ret (data, None) /\
    data = [Byte.x07; Byte.x00; Byte.x00; Byte.x00; Byte.x00] /\
    length data = 5%nat /\
    FromBytes 1 data = Ret (Some o', None) /\
    typ o' = Byte.x07 /\ len o' = 0 /\ val o' = [].
Proof.
  split; [lia|]. apply (zero_length_value 1 Byte.x07). lia.
Defined.

(** A header whose length field holds a negative [int32] makes [ReadObject]
    reach [make] with that length: the call panics instead of returning. *)
Lemma ReadObject_negative_length_panics fuel t v rest :
  (0 < fuel)%nat -> - 2 ^ 31 <= v < 0 ->
  ReadObject fuel
    (bytes.NewBuffer (t :: binary.BigEndian_PutUint32 (uint32 v) ++ rest)) = Panic.
Proof.
  intros Hf Hv. unfold ReadObject.
  erewrite bind_Ret by (apply Read_byte_Buffer; exact Hf).
  cbn beta iota.
  erewrite bind_Ret by (apply Read_int32_Buffer; [exact Hf | lia]).
  cbn beta iota. unfold bind, lift, make.
  destruct (Z.ltb_spec v 0) as [_|?]; [reflexivity | lia].
Qed.

(** C9 (negative length is not validated).  There is an input whose four
    length bytes decode to a negative [int32] on which [ReadObject] returns
    no error at all: it goes on to [make] a value buffer of that negative
    size, which the runtime answers with a panic. *)
Theorem ReadObject_negative_length_unchecked :
  exists (t : byte) (field rest : list byte),
    length field = 4%nat /\
    int32 (binary.BigEndian_Uint32 field) < 0 /\
    forall fuel,
      ReadObject (S fuel) (bytes.NewBuffer (t :: field ++ rest)) = Panic /\
      FromBytes (S fuel) (t :: field ++ rest) = Panic.
Proof.
  exists Byte.x01, (binary.BigEndian_PutUint32 (uint32 (-1))), [Byte.xaa].
  split; [reflexivity|].
  split; [rewrite decode_encode_int32; lia|].
  intros fuel.
  assert (E : ReadObject (S fuel)
                (bytes.NewBuffer
                   (Byte.x01 :: binary.BigEndian_PutUint32 (uint32 (-1)) ++ [Byte.xaa]))
              = Panic)
    by (apply ReadObject_negative_length_panics; lia).
  split; [exact E|].
  unfold FromBytes. rewrite E. reflexivity.
Qed.

(** C10 (in-memory encoding cannot fail).  For every record whose length is
    the length of its value, in particular every record [New] returns and
    every record [ReadObject] returns without error, [ToBytes] returns the
    wire form of the record with a nil error. *)
Theorem ToBytes_never_fails (o : object) :
  (well_formed o \/
   (exists t v, New t v = Ret o) \/
   (exists (R : Type) (rd : Reader R) (fuel : nat) (r r' : R),
       ReadObject fuel r = Ret ((Some o, None), r'))) ->
  ToBytes o = Ret (wire o, None).
Proof.
  intros [Hw | [(t & v & Hn) | (R & rd & fuel & r & r' & Hr)]];
    apply ToBytes_well_formed.
  - exact Hw.
  - exact (New_well_formed _ _ _ Hn).
  - exact (ReadObject_well_formed _ _ _ _ _ Hr).
Qed.

Lemma ToBytes_never_fails_witness :
  (exists t v, New t v = Ret (mkObject Byte.x01 2 [Byte.x02; Byte.x03])) /\
  ToBytes (mkObject Byte.x01 2 [Byte.x02; Byte.x03]) =
  Ret ([Byte.x01; Byte.x00; Byte.x00; Byte.x00; Byte.x02; Byte.x02; Byte.x03], None).
Proof.
  assert (Hn : exists t v, New t v = Ret (mkObject Byte.x01 2 [Byte.x02; Byte.x03]))
    by (exists Byte.x01, [Byte.x02; Byte.x03]; reflexivity).
  split; [exact Hn|].
  exact (ToBytes_never_fails (mkObject Byte.x01 2 [Byte.x02; Byte.x03])
           (or_intror (or_introl Hn))).
Defined.

(** ** Lists: lookup and removal *)

Lemma remove_first_None matches es :
  remove_first matches es = None ->
  filter matches es = [] /\ filter (fun e => negb (matches e)) es = es.
Proof.
  induction es as [|x xs IH]; simpl; [auto|].
  destruct (matches x) eqn:Ex; [discriminate|].
  destruct (remove_first matches xs); [discriminate|].
  intros _. destruct (IH eq_refl) as [-> ->]. auto.
Qed.

Lemma remove_first_Some matches es es' :
  remove_first matches es = Some es' ->
  filter (fun e => negb (matches e)) es' = filter (fun e => negb (matches e)) es /\
  length (filter matches es) = S (length (filter matches es')).
Proof.
  revert es'; induction es as [|x xs IH]; simpl; intros es' E; [discriminate|].
  destruct (matches x) eqn:Ex; cbn [negb].
  - inversion E; subst. auto.
  - destruct (remove_first matches xs) as [r|]; [|discriminate].
    inversion E; subst. destruct (IH r eq_refl) as [IH1 IH2].
    simpl. rewrite Ex. cbn [negb]. rewrite IH1. auto.
Qed.

(** The repeated scan removes exactly the matching elements, keeps the
    others in order, and counts the removals. *)
Lemma remove_loop_filter matches es total :
  remove_loop matches es total =
  (total + len_ (filter matches es), filter (fun e => negb (matches e)) es).
Proof.
  funelim (remove_loop matches es total).
  - match goal with IH : remove_loop _ _ _ = (_, _) |- _ => rewrite IH end.
    match goal with E : remove_first _ _ = Some _ |- _ =>
      destruct (remove_first_Some _ _ _ E) as [Hk Hc] end.
    unfold len_. rewrite Hk, Hc. f_equal. lia.
  - match goal with E : remove_first _ _ = None |- _ =>
      destruct (remove_first_None _ _ E) as [Hm Hk] end.
    rewrite Hm, Hk. unfold len_. simpl. f_equal. lia.
Qed.

Lemma Get_loop_first es t before o after :
  es = before ++ o :: after ->
  typ o = t ->
  Forall (fun e => typ e <> t) before ->
  TList.Get_loop es t = (Some o, None).
Proof.
  intros -> Ht Hb. induction Hb as [|x xs Hx _ IH]; simpl; unfold Type_.
  - rewrite (proj2 (Byte_eqb_eq _ _) Ht). reflexivity.
  - destruct (Byte.eqb (typ x) t) eqn:E; [apply Byte_eqb_eq in E; contradiction|].
    exact IH.
Qed.

Lemma Get_loop_cases es t :
  (exists before o after,
      es = before ++ o :: after /\ typ o = t /\
      Forall (fun e => typ e <> t) before /\
      TList.Get_loop es t = (Some o, None)) \/
  (Forall (fun e => typ e <> t) es /\
   TList.Get_loop es t = (None, Some ErrTypeNotFound)).
Proof.
  induction es as [|x xs IH]; simpl; unfold Type_.
  - right. auto.
  - destruct (Byte.eqb (typ x) t) eqn:E.
    + apply Byte_eqb_eq in E. left. exists [], x, xs. auto.
    + assert (typ x <> t) by (intros Ht; apply Byte_eqb_eq in Ht; congruence).
      destruct IH as [(b & o & a & -> & Ht & Hb & Hg) | [Hn Hg]].
      * left. exists (x :: b), o, a. auto.
      * right. auto.
Qed.

Lemma GetAll_fold es t acc :
  fold_left (fun ts e => if Byte.eqb (Type_ e) t then ts ++ [e] else ts) es acc =
  acc ++ filter (fun e => Byte.eqb (typ e) t) es.
Proof.
  revert acc; induction es as [|x xs IH]; intros acc; simpl.
  - symmetry; apply app_nil_r.
  - rewrite IH. unfold Type_. destruct (Byte.eqb (typ x) t); [|reflexivity].
    rewrite <- app_assoc. reflexivity.
Qed.

Lemma AddObject_sequence objs tl :
  objects (fold_left TList.AddObject objs tl) = objects tl ++ objs.
Proof.
  revert tl; induction objs as [|o os IH]; intros tl; simpl.
  - symmetry; apply app_nil_r.
  - rewrite IH. unfold TList.AddObject, PushBack. cbn [objects].
    rewrite <- app_assoc. reflexivity.
Qed.

Lemma filter_nil_Forall {A} (f : A -> bool) l :
  Forall (fun x => f x = false) l -> filter f l = [].
Proof.
  induction 1 as [|x xs Hx _ IH]; simpl; [reflexivity|]. rewrite Hx. exact IH.
Qed.

(** C6 (Get and GetAll).  Records enter a list at its tail, so the list
    order is the insertion order.  For every list and type byte [t]:
    [Get] returns the first record of type [t], the one no record of type
    [t] precedes, when there is one, and [ErrTypeNotFound] with no record
    when there is none; [GetAll] returns the records of type [t] in list
    order, and the empty slice when there is none. *)
Theorem Get_GetAll_by_type (tl : List) (t : byte) :
  (forall objs, objects (fold_left TList.AddObject objs NewList) = objs) /\
  TList.GetAll tl t = filter (fun e => Byte.eqb (typ e) t) (objects tl) /\
  ((exists before o after,
       objects tl = before ++ o :: after /\ typ o = t /\
       Forall (fun e => typ e <> t) before /\
       TList.Get tl t = (Some o, None)) \/
   (Forall (fun e => typ e <> t) (objects tl) /\
    TList.Get tl t = (None, Some ErrTypeNotFound) /\
    TList.GetAll tl t = [])).
Proof.
  assert (Ha : TList.GetAll tl t = filter (fun e => Byte.eqb (typ e) t) (objects tl))
    by (unfold TList.GetAll; apply GetAll_fold).
  split; [intros objs; apply AddObject_sequence|].
  split; [exact Ha|].
  unfold TList.Get.
  destruct (Get_loop_cases (objects tl) t) as [Hfound | [Hn Hg]]; [left; exact Hfound|].
  right. split; [exact Hn|]. split; [exact Hg|].
  rewrite Ha. apply filter_nil_Forall.
  eapply Forall_impl; [|exact Hn]. cbv beta. intros e He.
  destruct (Byte.eqb (typ e) t) eqn:E; [apply Byte_eqb_eq in E; contradiction | reflexivity].
Qed.

(** C7 (Remove).  For every list and type byte [t], [Remove] deletes every
    record of type [t], returns how many it deleted, and leaves the other
    records in their order; on [a, b, a, a] with [b] of another type than
    [a] it returns 3 and leaves [b]. *)
Theorem Remove_by_type (tl : List) (t : byte) (a b : object) :
  typ b <> typ a ->
  TList.Remove tl t =
    (len_ (filter (fun e => Byte.eqb (typ e) t) (objects tl)),
     mkList (filter (fun e => negb (Byte.eqb (typ e) t)) (objects tl))) /\
  TList.Remove (mkList [a; b; a; a]) (typ a) = (3, mkList [b]).
Proof.
  intros Hab.
  assert (G : forall l u,
             TList.Remove l u =
             (len_ (filter (fun e => Byte.eqb (typ e) u) (objects l)),
              mkList (filter (fun e => negb (Byte.eqb (typ e) u)) (objects l)))).
  { intros l u. unfold TList.Remove, Type_.
    rewrite remove_loop_filter. reflexivity. }
  split; [apply G|].
  rewrite G. cbn [objects filter].
  rewrite (proj2 (Byte_eqb_eq (typ a) (typ a)) eq_refl).
  destruct (Byte.eqb (typ b) (typ a)) eqn:E; [apply Byte_eqb_eq in E; contradiction|].
  reflexivity.
Qed.

Lemma Remove_by_type_witness :
  typ (mkObject Byte.x02 2 [Byte.xbb; Byte.xcc]) <> typ (mkObject Byte.x01 1 [Byte.xaa]) /\
  TList.Remove
    (mkList [mkObject Byte.x02 2 [Byte.xbb; Byte.xcc]; mkObject Byte.x01 1 [Byte.xaa];
             mkObject Byte.x02 2 [Byte.xbb; Byte.xcc]]) Byte.x02 =
    (2, mkList [mkObject Byte.x01 1 [Byte.xaa]]) /\
  TList.Remove
    (mkList [mkObject Byte.x01 1 [Byte.xaa]; mkObject Byte.x02 2 [Byte.xbb; Byte.xcc];
             mkObject Byte.x01 1 [Byte.xaa]; mkObject Byte.x01 1 [Byte.xaa]])
    (typ (mkObject Byte.x01 1 [Byte.xaa])) =
    (3, mkList [mkObject Byte.x02 2 [Byte.xbb; Byte.xcc]]).
Proof.
  assert (Hab : typ (mkObject Byte.x02 2 [Byte.xbb; Byte.xcc]) <>
                typ (mkObject Byte.x01 1 [Byte.xaa])) by (simpl; discriminate).
  split; [exact Hab|].
  exact (Remove_by_type
           (mkList [mkObject Byte.x02 2 [Byte.xbb; Byte.xcc]; mkObject Byte.x01 1 [Byte.xaa];
                    mkObject Byte.x02 2 [Byte.xbb; Byte.xcc]])
           Byte.x02 (mkObject Byte.x01 1 [Byte.xaa])
           (mkObject Byte.x02 2 [Byte.xbb; Byte.xcc]) Hab).
Defined.

(** C8 (RemoveObject).  For every list and record [r], [RemoveObject]
    deletes exactly the records [Equal] to [r], that is equal in type and
    in length and in value bytes, returns how many it deleted, and leaves
    every other record, also one of the type of [r] with another value, in
    place and in order. *)
Theorem RemoveObject_by_value (tl : List) (r : object) :
  TList.RemoveObject tl (Some r) =
    (len_ (filter (fun e => Equal (Some e) (Some r)) (objects tl)),
     mkList (filter (fun e => negb (Equal (Some e) (Some r))) (objects tl))) /\
  (forall e, Equal (Some e) (Some r) = true <->
             typ e = typ r /\ len e = len r /\ val e = val r) /\
  (forall e, In e (objects tl) -> typ e = typ r -> val e <> val r ->
             In e (objects (snd (TList.RemoveObject tl (Some r))))) /\
  (forall e, In e (objects (snd (TList.RemoveObject tl (Some r)))) ->
             In e (objects tl) /\ e <> r).
Proof.
  assert (G : TList.RemoveObject tl (Some r) =
    (len_ (filter (fun e => Equal (Some e) (Some r)) (objects tl)),
     mkList (filter (fun e => negb (Equal (Some e) (Some r))) (objects tl)))).
  { unfold TList.RemoveObject. rewrite remove_loop_filter. reflexivity. }
  split; [exact G|].
  split; [intros e; apply Equal_iff|].
  rewrite G. cbn [snd objects]. split.
  - intros e Hin Ht Hv. apply filter_In. split; [exact Hin|].
    destruct (Equal (Some e) (Some r)) eqn:E; [|reflexivity].
    apply Equal_iff in E. destruct E as (_ & _ & E). contradiction.
  - intros e Hin. apply filter_In in Hin. destruct Hin as [Hin Hne].
    split; [exact Hin|]. intros ->.
    rewrite (proj2 (Equal_eq r r) eq_refl) in Hne. discriminate.
Qed.

(** ** Lists: the stream codec *)

Lemma Write_loop_Buffer objs b :
  Forall well_formed objs ->
  TList.Write_loop objs (bytes.NewBuffer b) =
  Ret (None, bytes.NewBuffer (b ++ concat (map wire objs))).
Proof.
  intros Hw. revert b. induction Hw as [|o os Ho _ IH]; intros b; simpl.
  - rewrite app_nil_r. reflexivity.
  - erewrite bind_Ret by (apply WriteObject_Buffer_well_formed; exact Ho).
    rewrite IH, <- app_assoc. reflexivity.
Qed.

Lemma Read_loop_eq {R} `{Reader R} fuel n tl :
  Read_loop fuel (S n) tl =
  bind (ReadObject fuel)
    (fun x => let '(tlv, err) := x in
       match err with
       | Some e => ret (tl, Some e)
       | None => match tlv with
                 | Some o => Read_loop fuel n (PushBack tl o)
                 | None => panic
                 end
       end).
Proof. reflexivity. Qed.

(** The loop of [Read] decodes a run of encoded records one by one. *)
Lemma Read_loop_wire fuel objs n tl rest :
  (0 < fuel)%nat -> Forall well_formed objs ->
  Read_loop fuel (length objs + n) tl
    (bytes.NewBuffer (concat (map wire objs) ++ rest)) =
  Read_loop fuel n (mkList (objects tl ++ objs)) (bytes.NewBuffer rest).
Proof.
  intros Hf Hw. revert tl. induction Hw as [|o os Ho _ IH]; intros tl.
  - simpl. rewrite app_nil_r. destruct tl; reflexivity.
  - cbn [length Nat.add map concat]. rewrite Read_loop_eq, <- app_assoc.
    erewrite bind_Ret by (apply ReadObject_wire; assumption).
    cbn beta iota. rewrite IH. unfold PushBack. cbn [objects].
    rewrite <- app_assoc. reflexivity.
Qed.

Lemma ReadObject_Buffer_empty fuel :
  (0 < fuel)%nat ->
  ReadObject fuel (bytes.NewBuffer []) = Ret ((None, Some EOF), bytes.NewBuffer []).
Proof.
  intros Hf. unfold ReadObject, binary.Read_byte.
  erewrite bind_Ret.
  2:{ erewrite bind_Ret by (apply ReadFull_Buffer_empty; lia). reflexivity. }
  reflexivity.
Qed.

(** Only the type byte of a header: the read of the length finds the buffer
    empty and [io.ReadFull], having read nothing, reports plain [io.EOF]. *)
Lemma ReadObject_Buffer_type_only fuel t :
  (0 < fuel)%nat ->
  ReadObject fuel (bytes.NewBuffer [t]) = Ret ((None, Some EOF), bytes.NewBuffer []).
Proof.
  intros Hf. unfold ReadObject.
  erewrite bind_Ret by (apply Read_byte_Buffer; exact Hf).
  cbn beta iota. unfold binary.Read_int32.
  erewrite bind_Ret.
  2:{ erewrite bind_Ret by (apply ReadFull_Buffer_empty; lia). reflexivity. }
  reflexivity.
Qed.

(** The type byte and one to three bytes of the length:
    [io.ErrUnexpectedEOF]. *)
Lemma ReadObject_Buffer_partial_length fuel t part :
  (2 <= fuel)%nat -> (0 < length part < 4)%nat ->
  ReadObject fuel (bytes.NewBuffer (t :: part)) =
  Ret ((None, Some ErrUnexpectedEOF), bytes.NewBuffer []).
Proof.
  intros Hf Hp. unfold ReadObject.
  erewrite bind_Ret by (apply Read_byte_Buffer; lia).
  cbn beta iota. unfold binary.Read_int32.
  erewrite bind_Ret.
  2:{ erewrite bind_Ret by (apply ReadFull_Buffer_partial; lia). reflexivity. }
  reflexivity.
Qed.

(** [Read] over encoded records followed by [rest], when [ReadObject] on
    [rest] fails with [e]: the records read so far and the error, [io.EOF]
    turned into nil. *)
Lemma Read_wire_then fuel objs rest e b :
  (length objs < fuel)%nat -> Forall well_formed objs ->
  ReadObject fuel (bytes.NewBuffer rest) = Ret ((None, Some e), b) ->
  Read fuel (bytes.NewBuffer (concat (map wire objs) ++ rest)) =
  Ret ((mkList objs, if error_eqb e EOF then None else Some e), b).
Proof.
  intros Hf Hw Hr. unfold Read.
  replace fuel with (length objs + S (fuel - length objs - 1))%nat at 2 by lia.
  erewrite bind_Ret.
  2:{ rewrite Read_loop_wire by (assumption || lia).
      rewrite Read_loop_eq. erewrite bind_Ret by exact Hr. reflexivity. }
  cbn beta iota. cbn [objects app err_is].
  destruct (error_eqb e EOF); reflexivity.
Qed.

(** C2 (list round trip).  For every sequence of records, [Write] into an
    empty buffer succeeds, and [Read] over the bytes written returns, with a
    nil error, the list of the same records in the same order. *)
Theorem list_round_trip (fuel : nat) (objs : list object) :
  (length objs < fuel)%nat ->
  Forall well_formed objs ->
  exists data,
    TList.Write (mkList objs) (bytes.NewBuffer []) = Ret (None, bytes.NewBuffer data) /\
    Read fuel (bytes.NewBuffer data) = Ret ((mkList objs, None), bytes.NewBuffer []).
Proof.
  intros Hf Hw. exists (concat (map wire objs)).
  split; [unfold TList.Write; cbn [objects]; apply (Write_loop_Buffer objs [] Hw)|].
  rewrite <- (app_nil_r (concat (map wire objs))).
  rewrite (Read_wire_then fuel objs [] EOF (bytes.NewBuffer []));
    [reflexivity | assumption | assumption | apply ReadObject_Buffer_empty; lia].
Qed.

Lemma list_round_trip_witness :
  (length [mkObject Byte.x01 1 [Byte.xaa]; mkObject Byte.x02 0 []] < 3)%nat /\
  Forall well_formed [mkObject Byte.x01 1 [Byte.xaa]; mkObject Byte.x02 0 []] /\
  exists data,
    TList.Write (mkList [mkObject Byte.x01 1 [Byte.xaa]; mkObject Byte.x02 0 []])
      (bytes.NewBuffer []) = Ret (None, bytes.NewBuffer data) /\
    Read 3 (bytes.NewBuffer data) =
      Ret ((mkList [mkObject Byte.x01 1 [Byte.xaa]; mkObject Byte.x02 0 []], None),
           bytes.NewBuffer []).
Proof.
  assert (Hw : Forall well_formed
                 [mkObject Byte.x01 1 [Byte.xaa]; mkObject Byte.x02 0 []]).
  { repeat constructor; unfold int32_typed, len_; simpl; lia. }
  split; [simpl; lia|]. split; [exact Hw|].
  apply (list_round_trip 3 [mkObject Byte.x01 1 [Byte.xaa]; mkObject Byte.x02 0 []]).
  - simpl; lia.
  - exact Hw.
Defined.

(** [Read] stops without error at the end of the last record. *)
Lemma Read_clean_end fuel objs :
  (length objs < fuel)%nat -> Forall well_formed objs ->
  Read fuel (bytes.NewBuffer (concat (map wire objs))) =
  Ret ((mkList objs, None), bytes.NewBuffer []).
Proof.
  intros Hf Hw. rewrite <- (app_nil_r (concat (map wire objs))).
  rewrite (Read_wire_then fuel objs [] EOF (bytes.NewBuffer []));
    [reflexivity | assumption | assumption | apply ReadObject_Buffer_empty; lia].
Qed.

(** A stream cut inside the length field of the next header (two to four
    header bytes present): the records before it and [io.ErrUnexpectedEOF]. *)
Lemma Read_truncated_length fuel objs t part :
  (2 <= fuel)%nat -> (length objs < fuel)%nat -> Forall well_formed objs ->
  (0 < length part < 4)%nat ->
  Read fuel (bytes.NewBuffer (concat (map wire objs) ++ t :: part)) =
  Ret ((mkList objs, Some ErrUnexpectedEOF), bytes.NewBuffer []).
Proof.
  intros Hf Hn Hw Hp.
  rewrite (Read_wire_then fuel objs (t :: part) ErrUnexpectedEOF (bytes.NewBuffer []));
    [reflexivity | assumption | assumption |
     apply ReadObject_Buffer_partial_length; assumption].
Qed.

(** A stream cut right after the type byte of the next header: the records
    before it and a nil error, as at a clean end. *)
Lemma Read_truncated_after_type fuel objs t :
  (length objs < fuel)%nat -> Forall well_formed objs ->
  Read fuel (bytes.NewBuffer (concat (map wire objs) ++ [t])) =
  Ret ((mkList objs, None), bytes.NewBuffer []).
Proof.
  intros Hn Hw.
  rewrite (Read_wire_then fuel objs [t] EOF (bytes.NewBuffer []));
    [reflexivity | assumption | assumption |
     apply ReadObject_Buffer_type_only; lia].
Qed.

(** C3 (partial decode on truncation), evaluated where the code departs from
    it.  The stream is the complete record of type 1 with value [aa]
    followed by the lone type byte 2 of a second header.  [Read] returns the
    one complete record and a nil error, the very result it returns for the
    complete record alone; with one more byte of the second header the error
    is [io.ErrUnexpectedEOF]. *)
Theorem Read_truncated_header_one_byte :
  Read 2 (bytes.NewBuffer
            (wire (mkObject Byte.x01 1 [Byte.xaa]) ++ [Byte.x02])) =
    Ret ((mkList [mkObject Byte.x01 1 [Byte.xaa]], None), bytes.NewBuffer []) /\
  Read 2 (bytes.NewBuffer (wire (mkObject Byte.x01 1 [Byte.xaa]))) =
    Ret ((mkList [mkObject Byte.x01 1 [Byte.xaa]], None), bytes.NewBuffer []) /\
  Read 2 (bytes.NewBuffer
            (wire (mkObject Byte.x01 1 [Byte.xaa]) ++ [Byte.x02; Byte.x00])) =
    Ret ((mkList [mkObject Byte.x01 1 [Byte.xaa]], Some ErrUnexpectedEOF),
         bytes.NewBuffer []).
Proof. repeat split; vm_compute; reflexivity. Qed.

(** ** Writing one object to any sink *)

Lemma Tap_Write {W} `{Writer W} p (w w' : W) log n e :
  writer_Write p w = ((n, e), w') ->
  io.Write p (mkTap w log) = Ret ((n, e), mkTap w' (log ++ [p])).
Proof.
  intros E. unfold io.Write, writer_Write at 1, Tap_Writer. cbn [sink requests].
  rewrite E. reflexivity.
Qed.

(** C4 (WriteObject).  Take a record that keeps the data invariant and any
    sink, and let [(n1, e1)], [(n2, e2)], [(n3, e3)] be the sink's answers
    to a write of the type byte, then of the four bytes of the length, then
    of the value, where [n3] counts bytes of the value.  The four bytes are
    the big-endian [int32] length and the value has exactly that many
    bytes.  [WriteObject] issues these writes in this order and no other,
    stops at the first one the sink fails and returns the sink's error;
    when none fails it returns [ErrTLVWrite] if [n3] differs from the
    length, and nil otherwise. *)
Theorem WriteObject_emits {W} `{Writer W} (o : object) (w w1 w2 w3 : W)
    (n1 n2 n3 : Z) (e1 e2 e3 : option error) :
  well_formed o ->
  writer_Write [typ o] w = ((n1, e1), w1) ->
  writer_Write (binary.BigEndian_PutUint32 (uint32 (len o))) w1 = ((n2, e2), w2) ->
  writer_Write (val o) w2 = ((n3, e3), w3) ->
  0 <= n3 <= len_ (val o) ->
  let field := binary.BigEndian_PutUint32 (uint32 (len o)) in
  length field = 4%nat /\
  int32 (binary.BigEndian_Uint32 field) = len o /\
  len_ (val o) = len o /\
  WriteObject o (mkTap w []) =
    Ret (match e1 with
         | Some e => (Some e, mkTap w1 [[typ o]])
         | None =>
             match e2 with
             | Some e => (Some e, mkTap w2 [[typ o]; field])
             | None =>
                 match e3 with
                 | Some e => (Some e, mkTap w3 [[typ o]; field; val o])
                 | None =>
                     (if n3 =? len o then None else Some ErrTLVWrite,
                      mkTap w3 [[typ o]; field; val o])
                 end
             end
         end).
Proof.
  intros [Hr Hw] H1 H2 H3 Hn3 field.
  split; [reflexivity|].
  split; [apply decode_encode_int32; exact Hr|].
  split; [symmetry; exact Hw|].
  unfold WriteObject, binary.Write_byte, binary.Write_int32, Type_, Length, Value.
  erewrite bind_Ret.
  2:{ erewrite bind_Ret by (apply Tap_Write; exact H1). reflexivity. }
  cbn [app]. destruct e1 as [e|]; [reflexivity|].
  erewrite bind_Ret.
  2:{ erewrite bind_Ret by (apply Tap_Write; exact H2). reflexivity. }
  cbn [app]. destruct e2 as [e|]; [reflexivity|].
  erewrite bind_Ret by (apply Tap_Write; exact H3).
  cbn beta iota. cbn [app]. destruct e3 as [e|]; [reflexivity|].
  unfold int32_typed in Hr. rewrite int32_small by lia.
  destruct (n3 =? len o); reflexivity.
Qed.

Lemma WriteObject_emits_witness :
  well_formed (mkObject Byte.x01 2 [Byte.xaa; Byte.xbb]) /\
  0 <= 1 <= len_ [Byte.xaa; Byte.xbb] /\
  WriteObject (mkObject Byte.x01 2 [Byte.xaa; Byte.xbb])
    (mkTap (mkScripted [(1, None); (4, None); (1, None)]) []) =
  Ret (Some ErrTLVWrite,
       mkTap (mkScripted [])
         [[Byte.x01]; [Byte.x00; Byte.x00; Byte.x00; Byte.x02]; [Byte.xaa; Byte.xbb]]).
Proof.
  assert (Hw : well_formed (mkObject Byte.x01 2 [Byte.xaa; Byte.xbb]))
    by (unfold well_formed, int32_typed, len_; simpl; lia).
  assert (Hn : 0 <= 1 <= len_ [Byte.xaa; Byte.xbb]) by (unfold len_; simpl; lia).
  split; [exact Hw|]. split; [exact Hn|].
  exact (proj2 (proj2 (proj2
    (WriteObject_emits (mkObject Byte.x01 2 [Byte.xaa; Byte.xbb])
       (mkScripted [(1, None); (4, None); (1, None)])
       (mkScripted [(4, None); (1, None)])
       (mkScripted [(1, None)])
       (mkScripted [])
       1 4 1 None None None Hw eq_refl eq_refl eq_refl Hn)))).
Defined.

(** The sink's error comes back unchanged and ends the writes: here the
    write of the length fails. *)
Example WriteObject_sink_error :
  WriteObject (mkObject Byte.x01 2 [Byte.xaa; Byte.xbb])
    (mkTap (mkScripted [(1, None); (0, Some (ErrIO 7))]) []) =
  Ret (Some (ErrIO 7),
       mkTap (mkScripted [])
         [[Byte.x01]; [Byte.x00; Byte.x00; Byte.x00; Byte.x02]]).
Proof. reflexivity. Qed.

(** A sink that takes everything: the three writes, and a nil error. *)
Example WriteObject_all_written :
  WriteObject (mkObject Byte.x01 2 [Byte.xaa; Byte.xbb]) (mkTap (bytes.NewBuffer []) []) =
  Ret (None,
       mkTap (bytes.NewBuffer
                [Byte.x01; Byte.x00; Byte.x00; Byte.x00; Byte.x02; Byte.xaa; Byte.xbb])
         [[Byte.x01]; [Byte.x00; Byte.x00; Byte.x00; Byte.x02]; [Byte.xaa; Byte.xbb]]).
Proof. reflexivity. Qed.

(** * Further properties of the package *)

(** ** Byte order, the other way round *)

(** Equality of two four-byte fields, byte by byte. *)
Ltac each_of_four tac :=
  apply (f_equal2 cons);
  [ tac | apply (f_equal2 cons);
          [ tac | apply (f_equal2 cons);
                  [ tac | apply (f_equal2 cons); [ tac | reflexivity ] ] ] ].

Lemma PutUint32_mod v :
  binary.BigEndian_PutUint32 (v mod 2 ^ 32) = binary.BigEndian_PutUint32 v.
Proof.
  unfold binary.BigEndian_PutUint32, binary.byte_.
  each_of_four ltac:(apply byte.unsigned_inj;
    rewrite !byte.unsigned_of_Z; unfold byte.wrap;
    rewrite <- !Z.land_ones by lia; Z.bitblast).
Qed.

Lemma PutUint32_Uint32 b0 b1 b2 b3 :
  binary.BigEndian_PutUint32 (binary.BigEndian_Uint32 [b0; b1; b2; b3]) =
  [b0; b1; b2; b3].
Proof.
  unfold binary.BigEndian_PutUint32, binary.BigEndian_Uint32, binary.byte_.
  cbn [nth].
  each_of_four ltac:(apply byte.unsigned_inj;
    rewrite byte.unsigned_of_Z;
    rewrite <- (byte.wrap_unsigned b0), <- (byte.wrap_unsigned b1),
            <- (byte.wrap_unsigned b2), <- (byte.wrap_unsigned b3);
    unfold byte.wrap; rewrite <- !Z.land_ones by lia; Z.bitblast).
Qed.

Lemma uint32_int32 z : uint32 (int32 z) = uint32 z.
Proof.
  unfold uint32, int32.
  rewrite Zminus_mod_idemp_l.
  replace (z + 2 ^ 31 - 2 ^ 31) with z by lia. reflexivity.
Qed.

(** Re-encoding a decoded length field gives the four bytes back. *)
Lemma PutUint32_decoded b0 b1 b2 b3 :
  binary.BigEndian_PutUint32
    (uint32 (int32 (binary.BigEndian_Uint32 [b0; b1; b2; b3]))) =
  [b0; b1; b2; b3].
Proof.
  rewrite uint32_int32. unfold uint32. rewrite PutUint32_mod.
  apply PutUint32_Uint32.
Qed.

(** ** Decoding from a buffer, case by case *)

Lemma Read_int32_Buffer_field fuel b0 b1 b2 b3 rest :
  (0 < fuel)%nat ->
  binary.Read_int32 fuel (bytes.NewBuffer (b0 :: b1 :: b2 :: b3 :: rest)) =
  Ret ((int32 (binary.BigEndian_Uint32 [b0; b1; b2; b3]), None), bytes.NewBuffer rest).
Proof.
  intros Hf. unfold binary.Read_int32.
  erewrite bind_Ret.
  2:{ apply (ReadFull_Buffer_enough fuel [b0; b1; b2; b3] rest); simpl; lia. }
  reflexivity.
Qed.

(** What [ReadObject] does on a buffer that holds a whole header. *)
Lemma ReadObject_Buffer_header fuel t b0 b1 b2 b3 tail :
  (0 < fuel)%nat ->
  ReadObject fuel (bytes.NewBuffer (t :: b0 :: b1 :: b2 :: b3 :: tail)) =
  let l := int32 (binary.BigEndian_Uint32 [b0; b1; b2; b3]) in
  let n := Z.to_nat l in
  if l <? 0 then Panic
  else match tail with
       | [] =>
           if (n =? 0)%nat
           then Ret ((Some (mkObject t l []), None), bytes.NewBuffer [])
           else Ret ((None, Some EOF), bytes.NewBuffer [])
       | _ :: _ =>
           Ret ((Some (mkObject t l (copy (repeat Byte.x00 n) (firstn n tail))),
                 if int32 (len_ (firstn n tail)) =? l then None else Some ErrTLVRead),
                bytes.NewBuffer (skipn n tail))
       end.
Proof.
  intros Hf. cbv zeta. unfold ReadObject.
  erewrite bind_Ret by (apply Read_byte_Buffer; exact Hf).
  cbn beta iota.
  erewrite bind_Ret by (apply Read_int32_Buffer_field; exact Hf).
  cbn beta iota.
  set (l := int32 (binary.BigEndian_Uint32 [b0; b1; b2; b3])).
  unfold lift, make.
  destruct (Z.ltb_spec l 0) as [Hl|Hl]; [reflexivity|].
  erewrite bind_Ret by reflexivity.
  rewrite repeat_length.
  unfold bind, io.Read, reader_Read, Buffer_Reader, bytes.Buffer_Read, ret, Length.
  cbn [bytes.Bytes len].
  destruct tail as [|x xs].
  - destruct (Nat.eqb_spec (Z.to_nat l) 0) as [E|E]; [|reflexivity].
    rewrite E. cbn [repeat copy length Nat.min firstn skipn app len_ Z.of_nat].
    replace l with 0 by lia. reflexivity.
  - destruct (int32 (len_ (firstn (Z.to_nat l) (x :: xs))) =? l); reflexivity.
Qed.

(** No object comes out of fewer than the five bytes of a header. *)
Lemma ReadObject_Buffer_short fuel data o err r :
  (length data < 5)%nat ->
  ReadObject fuel (bytes.NewBuffer data) <> Ret ((Some o, err), r).
Proof.
  intros Hd.
  destruct fuel as [|[|fuel]].
  - discriminate.
  - destruct data as [|t [|b0 [|b1 [|b2 [|b3 rest]]]]];
      try discriminate; simpl in Hd; lia.
  - destruct data as [|t part].
    + rewrite ReadObject_Buffer_empty by lia. discriminate.
    + destruct part as [|b0 part'].
      * rewrite ReadObject_Buffer_type_only by lia. discriminate.
      * rewrite ReadObject_Buffer_partial_length by (simpl in *; lia). discriminate.
Qed.

Lemma int32_le z : 0 <= z -> int32 z <= z.
Proof.
  intros Hz. unfold int32.
  pose proof (Z.div_mod (z + 2 ^ 31) (2 ^ 32) ltac:(lia)) as E.
  pose proof (Z.div_pos (z + 2 ^ 31) (2 ^ 32) ltac:(lia) ltac:(lia)).
  lia.
Qed.

Lemma skipn_repeat {A} (x : A) k n : skipn k (repeat x n) = repeat x (n - k).
Proof.
  revert n; induction k as [|k IH]; intros [|n]; simpl; auto.
Qed.

Lemma copy_zeros_prefix n src :
  (n <= length src)%nat -> copy (repeat Byte.x00 n) src = firstn n src.
Proof.
  intros Hn. unfold copy. rewrite repeat_length, Nat.min_l by exact Hn.
  rewrite skipn_repeat, Nat.sub_diag. apply app_nil_r.
Qed.

Lemma copy_zeros_short n src :
  (length src <= n)%nat ->
  copy (repeat Byte.x00 n) src = src ++ repeat Byte.x00 (n - length src).
Proof.
  intros Hn. unfold copy. rewrite repeat_length, Nat.min_r by exact Hn.
  rewrite firstn_all, skipn_repeat. reflexivity.
Qed.

Lemma ReadObject_Buffer_field fuel t l tail :
  (0 < fuel)%nat -> - 2 ^ 31 <= l < 2 ^ 31 ->
  ReadObject fuel
    (bytes.NewBuffer (t :: binary.BigEndian_PutUint32 (uint32 l) ++ tail)) =
  let n := Z.to_nat l in
  if l <? 0 then Panic
  else match tail with
       | [] =>
           if (n =? 0)%nat
           then Ret ((Some (mkObject t l []), None), bytes.NewBuffer [])
           else Ret ((None, Some EOF), bytes.NewBuffer [])
       | _ :: _ =>
           Ret ((Some (mkObject t l (copy (repeat Byte.x00 n) (firstn n tail))),
                 if int32 (len_ (firstn n tail)) =? l then None else Some ErrTLVRead),
                bytes.NewBuffer (skipn n tail))
       end.
Proof.
  intros Hf Hl.
  unfold binary.BigEndian_PutUint32 at 1. cbn [app].
  rewrite ReadObject_Buffer_header by exact Hf. cbv zeta.
  change [binary.byte_ (Z.shiftr (uint32 l) 24); binary.byte_ (Z.shiftr (uint32 l) 16);
          binary.byte_ (Z.shiftr (uint32 l) 8); binary.byte_ (uint32 l)]
    with (binary.BigEndian_PutUint32 (uint32 l)).
  rewrite decode_encode_int32 by exact Hl. reflexivity.
Qed.

(** The value is cut short but not empty: [ErrTLVRead] and a zero-padded
    record; the buffer is used up. *)
Lemma ReadObject_Buffer_short_value fuel t l part :
  (0 < fuel)%nat -> 0 < len_ part < l -> l < 2 ^ 31 ->
  ReadObject fuel
    (bytes.NewBuffer (t :: binary.BigEndian_PutUint32 (uint32 l) ++ part)) =
  Ret ((Some (mkObject t l (part ++ repeat Byte.x00 (Z.to_nat l - length part))),
        Some ErrTLVRead), bytes.NewBuffer []).
Proof.
  intros Hf Hp Hl. unfold len_ in *.
  rewrite ReadObject_Buffer_field by lia. cbv zeta.
  destruct (Z.ltb_spec l 0) as [?|_]; [lia|].
  destruct part as [|x xs]; [simpl in Hp; lia|].
  rewrite firstn_all2, skipn_all2 by lia.
  rewrite copy_zeros_short by lia.
  unfold len_. rewrite int32_small by lia.
  destruct (Z.eqb_spec (Z.of_nat (length (x :: xs))) l) as [?|_]; [lia|].
  reflexivity.
Qed.

(** The value is announced and wholly missing: plain [io.EOF]. *)
Lemma ReadObject_Buffer_missing_value fuel t l :
  (0 < fuel)%nat -> 0 < l < 2 ^ 31 ->
  ReadObject fuel (bytes.NewBuffer (t :: binary.BigEndian_PutUint32 (uint32 l))) =
  Ret ((None, Some EOF), bytes.NewBuffer []).
Proof.
  intros Hf Hl.
  rewrite <- (app_nil_r (binary.BigEndian_PutUint32 (uint32 l))).
  rewrite ReadObject_Buffer_field by lia. cbv zeta.
  destruct (Z.ltb_spec l 0) as [?|_]; [lia|].
  destruct (Nat.eqb_spec (Z.to_nat l) 0) as [?|_]; [lia|].
  reflexivity.
Qed.

(** A record decoded without error was read off the front of the buffer. *)
Lemma ReadObject_Buffer_inv fuel data o r :
  ReadObject fuel (bytes.NewBuffer data) = Ret ((Some o, None), r) ->
  exists rest, data = wire o ++ rest /\ r = bytes.NewBuffer rest.
Proof.
  intros Er.
  destruct fuel as [|fuel]; [discriminate|].
  destruct data as [|t [|b0 [|b1 [|b2 [|b3 tail]]]]];
    try (exfalso; revert Er; apply ReadObject_Buffer_short; simpl; lia).
  rewrite ReadObject_Buffer_header in Er by lia. cbv zeta in Er.
  set (l := int32 (binary.BigEndian_Uint32 [b0; b1; b2; b3])) in *.
  destruct (Z.ltb_spec l 0) as [?|Hl]; [discriminate|].
  destruct tail as [|x xs].
  - destruct (Nat.eqb_spec (Z.to_nat l) 0) as [E0|_]; [|discriminate].
    inversion Er; subst o r. exists []. unfold wire. cbn [typ len val].
    subst l. rewrite PutUint32_decoded. auto.
  - set (n := Z.to_nat l) in *.
    destruct (Z.eqb_spec (int32 (len_ (firstn n (x :: xs)))) l) as [El|_];
      [|discriminate].
    inversion Er; subst o r. exists (skipn n (x :: xs)).
    unfold wire. cbn [typ len val].
    pose proof (length_firstn n (x :: xs)) as Hfn.
    pose proof (int32_range (binary.BigEndian_Uint32 [b0; b1; b2; b3])) as Hr.
    fold l in Hr.
    unfold len_ in El. rewrite int32_small in El by (subst n; lia).
    rewrite copy_full by (rewrite repeat_length; subst n; lia).
    subst l. rewrite PutUint32_decoded. cbn [app].
    rewrite firstn_skipn. auto.
Qed.


(** ** More on the codec *)

(** X1.  [Equal] decides equality of two possibly nil TLV values: two nils
    are equal, a nil and a record never are, and two records are equal
    exactly when they are the same record. *)
Theorem Equal_decides_equality (a b : option object) :
  Equal a b = true <-> a = b.
Proof.
  destruct a as [x|], b as [y|].
  - rewrite Equal_eq. split; congruence.
  - split; discriminate.
  - split; discriminate.
  - split; reflexivity.
Qed.

(** X2.  [New] either panics, when [int32(len(val))] is negative, or
    returns the record of that wrapped length whose value is the prefix of
    [val] of that length; nothing is padded. *)
Theorem New_panics_or_takes_prefix (t : byte) (v : list byte) :
  New t v =
  if int32 (len_ v) <? 0 then Panic
  else Ret (mkObject t (int32 (len_ v)) (firstn (Z.to_nat (int32 (len_ v))) v)).
Proof.
  unfold New, make.
  destruct (Z.ltb_spec (int32 (len_ v)) 0) as [Hl|Hl]; [reflexivity|].
  cbn [outcome_map]. rewrite copy_zeros_prefix; [reflexivity|].
  pose proof (int32_le (len_ v)). unfold len_ in *. lia.
Qed.

(** X3.  The encoding of a record has five bytes more than its value, and
    [ReadObject] over a buffer that starts with it returns the record and
    leaves exactly the bytes that follow. *)
Theorem ReadObject_consumes_one_record (fuel : nat) (o : object) :
  (0 < fuel)%nat ->
  well_formed o ->
  exists data,
    ToBytes o = Ret (data, None) /\
    len_ data = 5 + len o /\
    forall rest,
      ReadObject fuel (bytes.NewBuffer (data ++ rest)) =
      Ret ((Some o, None), bytes.NewBuffer rest).
Proof.
  intros Hf Hw. exists (wire o).
  split; [apply ToBytes_well_formed, Hw|].
  split.
  - destruct Hw as [_ Hw]. rewrite Hw. unfold wire, len_.
    cbn [length]. rewrite length_app, length_PutUint32. lia.
  - intros rest. apply ReadObject_wire; assumption.
Qed.

Lemma ReadObject_consumes_one_record_witness :
  (0 < 1)%nat /\
  well_formed (mkObject Byte.x01 1 [Byte.xaa]) /\
  exists data,
    ToBytes (mkObject Byte.x01 1 [Byte.xaa]) = Ret (data, None) /\
    len_ data = 5 + len (mkObject Byte.x01 1 [Byte.xaa]) /\
    forall rest,
      ReadObject 1 (bytes.NewBuffer (data ++ rest)) =
      Ret ((Some (mkObject Byte.x01 1 [Byte.xaa]), None), bytes.NewBuffer rest).
Proof.
  assert (Hw : well_formed (mkObject Byte.x01 1 [Byte.xaa]))
    by (unfold well_formed, int32_typed, len_; simpl; lia).
  split; [lia|]. split; [exact Hw|].
  apply (ReadObject_consumes_one_record 1 (mkObject Byte.x01 1 [Byte.xaa])); [lia | exact Hw].
Defined.

(** X4.  Encodings are unambiguous: when the encoding of one record
    followed by some bytes equals the encoding of another followed by some
    bytes, the records are the same and so are the bytes that follow. *)
Theorem ToBytes_unambiguous (o1 o2 : object) (d1 d2 r1 r2 : list byte) :
  well_formed o1 ->
  well_formed o2 ->
  ToBytes o1 = Ret (d1, None) ->
  ToBytes o2 = Ret (d2, None) ->
  d1 ++ r1 = d2 ++ r2 ->
  o1 = o2 /\ r1 = r2.
Proof.
  intros H1 H2 E1 E2 E.
  rewrite ToBytes_well_formed in E1, E2 by assumption.
  inversion E1; inversion E2; subst d1 d2.
  pose proof (ReadObject_wire 1 o1 r1 ltac:(lia) H1) as R1.
  pose proof (ReadObject_wire 1 o2 r2 ltac:(lia) H2) as R2.
  rewrite E in R1. rewrite R1 in R2. inversion R2. auto.
Qed.

Lemma ToBytes_unambiguous_witness :
  well_formed (mkObject Byte.x01 1 [Byte.xaa]) /\
  ToBytes (mkObject Byte.x01 1 [Byte.xaa]) =
    Ret ([Byte.x01; Byte.x00; Byte.x00; Byte.x00; Byte.x01; Byte.xaa], None) /\
  [Byte.x01; Byte.x00; Byte.x00; Byte.x00; Byte.x01; Byte.xaa] ++ [Byte.x09] =
    [Byte.x01; Byte.x00; Byte.x00; Byte.x00; Byte.x01; Byte.xaa] ++ [Byte.x09] /\
  mkObject Byte.x01 1 [Byte.xaa] = mkObject Byte.x01 1 [Byte.xaa] /\
  [Byte.x09] = [Byte.x09].
Proof.
  assert (Hw : well_formed (mkObject Byte.x01 1 [Byte.xaa]))
    by (unfold well_formed, int32_typed, len_; simpl; lia).
  split; [exact Hw|]. split; [reflexivity|]. split; [reflexivity|].
  exact (ToBytes_unambiguous
           (mkObject Byte.x01 1 [Byte.xaa]) (mkObject Byte.x01 1 [Byte.xaa])
           [Byte.x01; Byte.x00; Byte.x00; Byte.x00; Byte.x01; Byte.xaa]
           [Byte.x01; Byte.x00; Byte.x00; Byte.x00; Byte.x01; Byte.xaa]
           [Byte.x09] [Byte.x09] Hw Hw eq_refl eq_refl eq_refl).
Defined.

(** X5.  A buffer that ends inside the value, with at least one value byte
    present: [FromBytes] returns [ErrTLVRead] together with a record of the
    announced length whose value is the bytes present followed by zeros. *)
Theorem FromBytes_short_value (fuel : nat) (t : byte) (l : Z) (part : list byte) :
  (0 < fuel)%nat ->
  0 < len_ part < l ->
  l < 2 ^ 31 ->
  FromBytes fuel (t :: binary.BigEndian_PutUint32 (uint32 l) ++ part) =
  Ret (Some (mkObject t l (part ++ repeat Byte.x00 (Z.to_nat l - length part))),
       Some ErrTLVRead).
Proof.
  intros Hf Hp Hl. unfold FromBytes.
  rewrite ReadObject_Buffer_short_value by assumption. reflexivity.
Qed.

Lemma FromBytes_short_value_witness :
  (0 < 1)%nat /\
  0 < len_ [Byte.xaa] < 3 /\
  3 < 2 ^ 31 /\
  FromBytes 1 (Byte.x01 :: binary.BigEndian_PutUint32 (uint32 3) ++ [Byte.xaa]) =
  Ret (Some (mkObject Byte.x01 3 [Byte.xaa; Byte.x00; Byte.x00]), Some ErrTLVRead).
Proof.
  assert (Hp : 0 < len_ [Byte.xaa] < 3) by (unfold len_; simpl; lia).
  split; [lia|]. split; [exact Hp|]. split; [lia|].
  exact (FromBytes_short_value 1 Byte.x01 3 [Byte.xaa] ltac:(lia) Hp ltac:(lia)).
Defined.

(** X6.  Fewer than the five bytes of a header: [FromBytes] returns no
    record and [io.EOF] when at most the type byte is there,
    [io.ErrUnexpectedEOF] when one to three bytes of the length follow it. *)
Theorem FromBytes_short_header (fuel : nat) (data : list byte) :
  (2 <= fuel)%nat ->
  (length data < 5)%nat ->
  FromBytes fuel data =
  Ret (None, Some (if (length data <=? 1)%nat then EOF else ErrUnexpectedEOF)).
Proof.
  intros Hf Hd. unfold FromBytes.
  destruct data as [|t [|b0 part]].
  - rewrite ReadObject_Buffer_empty by lia. reflexivity.
  - rewrite ReadObject_Buffer_type_only by lia. reflexivity.
  - rewrite ReadObject_Buffer_partial_length by (simpl in *; lia). reflexivity.
Qed.

Lemma FromBytes_short_header_witness :
  (2 <= 2)%nat /\
  (length [Byte.x01; Byte.x00; Byte.x00] < 5)%nat /\
  FromBytes 2 [Byte.x01; Byte.x00; Byte.x00] = Ret (None, Some ErrUnexpectedEOF).
Proof.
  split; [lia|]. split; [simpl; lia|].
  exact (FromBytes_short_header 2 [Byte.x01; Byte.x00; Byte.x00]
           ltac:(lia) ltac:(simpl; lia)).
Defined.

(** X7.  A header that announces a value of one byte or more, and nothing
    after it: [FromBytes] returns no record and plain [io.EOF], the error of
    an empty input. *)
Theorem FromBytes_missing_value (fuel : nat) (t : byte) (l : Z) :
  (0 < fuel)%nat ->
  0 < l < 2 ^ 31 ->
  FromBytes fuel (t :: binary.BigEndian_PutUint32 (uint32 l)) = Ret (None, Some EOF) /\
  FromBytes fuel [] = Ret (None, Some EOF).
Proof.
  intros Hf Hl. unfold FromBytes. split.
  - rewrite ReadObject_Buffer_missing_value by assumption. reflexivity.
  - rewrite ReadObject_Buffer_empty by exact Hf. reflexivity.
Qed.

Lemma FromBytes_missing_value_witness :
  (0 < 1)%nat /\
  0 < 2 < 2 ^ 31 /\
  FromBytes 1 (Byte.x01 :: binary.BigEndian_PutUint32 (uint32 2)) = Ret (None, Some EOF) /\
  FromBytes 1 [] = Ret (None, Some EOF).
Proof.
  split; [lia|]. split; [lia|].
  exact (FromBytes_missing_value 1 Byte.x01 2 ltac:(lia) ltac:(lia)).
Defined.

(** X8.  Whatever [FromBytes] decodes without error, it read from the
    input: the input is the encoding [ToBytes] gives for the decoded record,
    followed by bytes that were not looked at; and the record keeps the data
    invariant. *)
Theorem FromBytes_then_ToBytes (fuel : nat) (data : list byte) (o : object) :
  FromBytes fuel data = Ret (Some o, None) ->
  well_formed o /\
  exists enc rest, ToBytes o = Ret (enc, None) /\ data = enc ++ rest.
Proof.
  unfold FromBytes. intros E.
  destruct (ReadObject fuel (bytes.NewBuffer data)) as [[[x e] r]| |] eqn:Er;
    try discriminate.
  cbn [outcome_map fst] in E. inversion E; subst x e; clear E.
  pose proof (ReadObject_well_formed _ _ _ _ _ Er) as Hw.
  split; [exact Hw|].
  destruct (ReadObject_Buffer_inv _ _ _ _ Er) as (rest & Hd & _).
  exists (wire o), rest. split; [apply ToBytes_well_formed, Hw | exact Hd].
Qed.

Lemma FromBytes_then_ToBytes_witness :
  FromBytes 1 [Byte.x01; Byte.x00; Byte.x00; Byte.x00; Byte.x01; Byte.xaa; Byte.x09] =
    Ret (Some (mkObject Byte.x01 1 [Byte.xaa]), None) /\
  well_formed (mkObject Byte.x01 1 [Byte.xaa]) /\
  exists enc rest,
    ToBytes (mkObject Byte.x01 1 [Byte.xaa]) = Ret (enc, None) /\
    [Byte.x01; Byte.x00; Byte.x00; Byte.x00; Byte.x01; Byte.xaa; Byte.x09] = enc ++ rest.
Proof.
  split; [reflexivity|].
  exact (FromBytes_then_ToBytes 1
           [Byte.x01; Byte.x00; Byte.x00; Byte.x00; Byte.x01; Byte.xaa; Byte.x09]
           (mkObject Byte.x01 1 [Byte.xaa]) eq_refl).
Defined.

(** X9.  A record can carry an encoded record as its value.  Encoding
    [inner], wrapping the bytes with [New], encoding and decoding the outer
    record, and decoding its value gives [inner] back. *)
Theorem embedded_record_round_trip (fuel : nat) (t : byte) (inner : object) :
  (0 < fuel)%nat ->
  well_formed inner ->
  len inner + 5 < 2 ^ 31 ->
  exists enc outer enc_outer back,
    ToBytes inner = Ret (enc, None) /\
    New t enc = Ret outer /\
    ToBytes outer = Ret (enc_outer, None) /\
    FromBytes fuel enc_outer = Ret (Some back, None) /\
    Type_ back = t /\
    FromBytes fuel (Value back) = Ret (Some inner, None).
Proof.
  intros Hf Hw Hl.
  assert (Hlen : len_ (wire inner) = 5 + len inner).
  { destruct Hw as [_ E]. rewrite E. unfold wire, len_. cbn [length].
    rewrite length_app, length_PutUint32. lia. }
  assert (Hn : New t (wire inner) =
               Ret (mkObject t (len_ (wire inner)) (wire inner)))
    by (apply New_in_range; lia).
  pose proof (New_well_formed _ _ _ Hn) as Ho.
  exists (wire inner), (mkObject t (len_ (wire inner)) (wire inner)),
    (wire (mkObject t (len_ (wire inner)) (wire inner))),
    (mkObject t (len_ (wire inner)) (wire inner)).
  split; [apply ToBytes_well_formed, Hw|].
  split; [exact Hn|].
  split; [apply ToBytes_well_formed, Ho|].
  split; [apply FromBytes_wire; assumption|].
  split; [reflexivity|].
  unfold Value. cbn [val]. apply FromBytes_wire; assumption.
Qed.

Lemma embedded_record_round_trip_witness :
  (0 < 1)%nat /\
  well_formed (mkObject Byte.x02 1 [Byte.xaa]) /\
  len (mkObject Byte.x02 1 [Byte.xaa]) + 5 < 2 ^ 31 /\
  exists enc outer enc_outer back,
    ToBytes (mkObject Byte.x02 1 [Byte.xaa]) = Ret (enc, None) /\
    New Byte.x01 enc = Ret outer /\
    ToBytes outer = Ret (enc_outer, None) /\
    FromBytes 1 enc_outer = Ret (Some back, None) /\
    Type_ back = Byte.x01 /\
    FromBytes 1 (Value back) = Ret (Some (mkObject Byte.x02 1 [Byte.xaa]), None).
Proof.
  assert (Hw : well_formed (mkObject Byte.x02 1 [Byte.xaa]))
    by (unfold well_formed, int32_typed, len_; simpl; lia).
  split; [lia|]. split; [exact Hw|]. split; [simpl; lia|].
  exact (embedded_record_round_trip 1 Byte.x01 (mkObject Byte.x02 1 [Byte.xaa])
           ltac:(lia) Hw ltac:(simpl; lia)).
Defined.

(** ** [ReadObject] over any reader *)

(** X10.  Whatever the reader does, a call of [ReadObject] that returns
    gives one of three results: no record and an error; a record and no
    error; a record and [ErrTLVRead].  A record it returns keeps the data
    invariant. *)
Theorem ReadObject_results {R} `{Reader R} (fuel : nat) (r r' : R)
    (tlv : option object) (err : option error) :
  ReadObject fuel r = Ret ((tlv, err), r') ->
  match tlv with
  | Some o => well_formed o /\ (err = None \/ err = Some ErrTLVRead)
  | None => exists e, err = Some e
  end.
Proof.
  intros E. destruct tlv as [o|].
  - split; [exact (ReadObject_well_formed _ _ _ _ _ E)|].
    revert E. unfold ReadObject, bind.
    destruct (binary.Read_byte fuel r) as [[[t [e|]] r1]| |]; try discriminate.
    destruct (binary.Read_int32 fuel r1) as [[[l [e|]] r2]| |]; try discriminate.
    unfold lift, make. destruct (l <? 0); [discriminate|].
    cbn [outcome_map]. unfold ret, io.Read.
    destruct (reader_Read _ r2) as [[data [e|]] r3]; [discriminate|].
    destruct (negb _); intros E; inversion E; auto.
  - destruct err as [e|]; [exists e; reflexivity|].
    exfalso. exact (ReadObject_nil_error _ _ _ E).
Qed.

Lemma ReadObject_results_witness :
  ReadObject 1 (bytes.NewBuffer [Byte.x01; Byte.x00; Byte.x00; Byte.x00; Byte.x02; Byte.xaa]) =
    Ret ((Some (mkObject Byte.x01 2 [Byte.xaa; Byte.x00]), Some ErrTLVRead),
         bytes.NewBuffer []) /\
  well_formed (mkObject Byte.x01 2 [Byte.xaa; Byte.x00]) /\
  (Some ErrTLVRead = None \/ Some ErrTLVRead = Some ErrTLVRead).
Proof.
  split; [reflexivity|].
  exact (ReadObject_results 1
           (bytes.NewBuffer [Byte.x01; Byte.x00; Byte.x00; Byte.x00; Byte.x02; Byte.xaa])
           (bytes.NewBuffer [])
           (Some (mkObject Byte.x01 2 [Byte.xaa; Byte.x00])) (Some ErrTLVRead) eq_refl).
Defined.

(** X11.  An error of the reader on the first read comes back unchanged
    from [ReadObject], with no record; [Read] then returns the empty list
    with that error, or with nil when the error is [io.EOF]. *)
Theorem reader_error_is_passed_on {R} `{Reader R} (fuel : nat) (r r' : R) (e : error) :
  (0 < fuel)%nat ->
  reader_Read 1 r = (([], Some e), r') ->
  ReadObject fuel r = Ret ((None, Some e), r') /\
  Read fuel r = Ret ((NewList, if error_eqb e EOF then None else Some e), r').
Proof.
  intros Hf Hr.
  assert (E : ReadObject fuel r = Ret ((None, Some e), r')).
  { destruct fuel as [|fuel]; [lia|].
    unfold ReadObject, binary.Read_byte, io.ReadFull, io.ReadAtLeast.
    cbn [Nat.ltb Nat.leb].
    erewrite bind_Ret.
    2:{ erewrite bind_Ret.
        2:{ erewrite bind_Ret.
            2:{ rewrite ReadAtLeast_loop_eq. cbn [length Nat.ltb Nat.leb andb is_nil].
                erewrite bind_Ret by (unfold io.Read; cbn [Nat.sub]; rewrite Hr; reflexivity).
                cbn beta iota. rewrite ReadAtLeast_loop_eq.
                cbn [app length Nat.ltb Nat.leb andb is_nil]. reflexivity. }
            cbn beta iota. cbn [length Nat.leb Nat.ltb andb]. reflexivity. }
        reflexivity. }
    reflexivity. }
  split; [exact E|].
  unfold Read. destruct fuel as [|fuel]; [lia|].
  erewrite bind_Ret.
  2:{ rewrite Read_loop_eq. erewrite bind_Ret by exact E. reflexivity. }
  cbn beta iota. cbn [err_is]. destruct (error_eqb e EOF); reflexivity.
Qed.

Lemma reader_error_is_passed_on_witness :
  (0 < 1)%nat /\
  reader_Read 1 (mkScriptedReader [([], Some (ErrIO 5))]) =
    (([], Some (ErrIO 5)), mkScriptedReader []) /\
  ReadObject 1 (mkScriptedReader [([], Some (ErrIO 5))]) =
    Ret ((None, Some (ErrIO 5)), mkScriptedReader []) /\
  Read 1 (mkScriptedReader [([], Some (ErrIO 5))]) =
    Ret ((NewList, Some (ErrIO 5)), mkScriptedReader []).
Proof.
  split; [lia|]. split; [reflexivity|].
  exact (reader_error_is_passed_on 1 (mkScriptedReader [([], Some (ErrIO 5))])
           (mkScriptedReader []) (ErrIO 5) ltac:(lia) eq_refl).
Defined.

(** ** More on the list codec *)

Lemma Write_loop_app {W} `{Writer W} pre post (w : W) :
  TList.Write_loop (pre ++ post) w =
  bind (TList.Write_loop pre)
    (fun err => match err with
                | Some e => ret (Some e)
                | None => TList.Write_loop post
                end) w.
Proof.
  revert w; induction pre as [|o os IH]; intros w; [reflexivity|].
  cbn [app TList.Write_loop]. unfold bind.
  destruct (WriteObject o w) as [[[e|] w1]| |]; try reflexivity.
  rewrite IH. reflexivity.
Qed.

(** [Read] over encoded records followed by [rest], when [ReadObject] on
    [rest] fails in any way. *)
Lemma Read_wire_then_failure fuel objs rest x e b :
  (length objs < fuel)%nat -> Forall well_formed objs ->
  ReadObject fuel (bytes.NewBuffer rest) = Ret ((x, Some e), b) ->
  Read fuel (bytes.NewBuffer (concat (map wire objs) ++ rest)) =
  Ret ((mkList objs, if error_eqb e EOF then None else Some e), b).
Proof.
  intros Hf Hw Hr. unfold Read.
  replace fuel with (length objs + S (fuel - length objs - 1))%nat at 2 by lia.
  erewrite bind_Ret.
  2:{ rewrite Read_loop_wire by (assumption || lia).
      rewrite Read_loop_eq. erewrite bind_Ret by exact Hr. reflexivity. }
  cbn beta iota. cbn [objects app err_is].
  destruct (error_eqb e EOF); reflexivity.
Qed.

(** X12.  [Write] into a buffer appends, to what the buffer holds, the
    encodings of the records one after the other, with nothing before,
    between or after them, and returns nil. *)
Theorem Write_appends_encodings (objs : list object) (b : list byte) :
  Forall well_formed objs ->
  TList.Write (mkList objs) (bytes.NewBuffer b) =
    Ret (None, bytes.NewBuffer (b ++ concat (map wire objs))) /\
  Forall2 (fun o enc => ToBytes o = Ret (enc, None)) objs (map wire objs) /\
  len_ (concat (map wire objs)) =
    fold_right (fun o total => 5 + len o + total) 0 objs.
Proof.
  intros Hw.
  split; [unfold TList.Write; cbn [objects]; apply Write_loop_Buffer, Hw|].
  split.
  - induction Hw as [|o os Ho _ IH]; simpl; constructor; auto.
    apply ToBytes_well_formed, Ho.
  - induction Hw as [|o os Ho _ IH]; [reflexivity|].
    cbn [map concat fold_right]. rewrite <- IH.
    destruct Ho as [_ Ho]. rewrite Ho. unfold wire, len_.
    cbn [app length]. rewrite !length_app, length_PutUint32. lia.
Qed.

Lemma Write_appends_encodings_witness :
  Forall well_formed [mkObject Byte.x01 1 [Byte.xaa]; mkObject Byte.x02 0 []] /\
  TList.Write (mkList [mkObject Byte.x01 1 [Byte.xaa]; mkObject Byte.x02 0 []])
    (bytes.NewBuffer [Byte.xff]) =
    Ret (None, bytes.NewBuffer
                 [Byte.xff; Byte.x01; Byte.x00; Byte.x00; Byte.x00; Byte.x01; Byte.xaa;
                  Byte.x02; Byte.x00; Byte.x00; Byte.x00; Byte.x00]).
Proof.
  assert (Hw : Forall well_formed
                 [mkObject Byte.x01 1 [Byte.xaa]; mkObject Byte.x02 0 []]).
  { repeat constructor; unfold int32_typed, len_; simpl; lia. }
  split; [exact Hw|].
  exact (proj1 (Write_appends_encodings
                  [mkObject Byte.x01 1 [Byte.xaa]; mkObject Byte.x02 0 []]
                  [Byte.xff] Hw)).
Defined.

(** X13.  [Write] stops at the first record whose [WriteObject] fails: it
    returns that error, the sink is left as that failed call left it, and
    the records after it are not written.  This holds for every sink. *)
Theorem Write_stops_at_first_error {W} `{Writer W}
    (pre post : list object) (o : object) (w w1 w2 : W) (e : error) :
  TList.Write (mkList pre) w = Ret (None, w1) ->
  WriteObject o w1 = Ret (Some e, w2) ->
  TList.Write (mkList (pre ++ o :: post)) w = Ret (Some e, w2).
Proof.
  unfold TList.Write. cbn [objects]. intros Hp Ho.
  rewrite Write_loop_app. erewrite bind_Ret by exact Hp.
  cbn [TList.Write_loop]. erewrite bind_Ret by exact Ho. reflexivity.
Qed.

Lemma Write_stops_at_first_error_witness :
  TList.Write (mkList [mkObject Byte.x01 1 [Byte.xaa]])
    (mkTap (mkScripted [(1, None); (4, None); (1, None); (0, Some (ErrIO 3))]) []) =
    Ret (None,
         mkTap (mkScripted [(0, Some (ErrIO 3))])
           [[Byte.x01]; [Byte.x00; Byte.x00; Byte.x00; Byte.x01]; [Byte.xaa]]) /\
  WriteObject (mkObject Byte.x02 0 [])
    (mkTap (mkScripted [(0, Some (ErrIO 3))])
       [[Byte.x01]; [Byte.x00; Byte.x00; Byte.x00; Byte.x01]; [Byte.xaa]]) =
    Ret (Some (ErrIO 3),
         mkTap (mkScripted [])
           [[Byte.x01]; [Byte.x00; Byte.x00; Byte.x00; Byte.x01]; [Byte.xaa]; [Byte.x02]]) /\
  TList.Write
    (mkList ([mkObject Byte.x01 1 [Byte.xaa]] ++
             mkObject Byte.x02 0 [] :: [mkObject Byte.x03 1 [Byte.xbb]]))
    (mkTap (mkScripted [(1, None); (4, None); (1, None); (0, Some (ErrIO 3))]) []) =
    Ret (Some (ErrIO 3),
         mkTap (mkScripted [])
           [[Byte.x01]; [Byte.x00; Byte.x00; Byte.x00; Byte.x01]; [Byte.xaa]; [Byte.x02]]).
Proof.
  split; [reflexivity|]. split; [reflexivity|].
  exact (Write_stops_at_first_error
           [mkObject Byte.x01 1 [Byte.xaa]] [mkObject Byte.x03 1 [Byte.xbb]]
           (mkObject Byte.x02 0 [])
           (mkTap (mkScripted [(1, None); (4, None); (1, None); (0, Some (ErrIO 3))]) [])
           (mkTap (mkScripted [(0, Some (ErrIO 3))])
              [[Byte.x01]; [Byte.x00; Byte.x00; Byte.x00; Byte.x01]; [Byte.xaa]])
           (mkTap (mkScripted [])
              [[Byte.x01]; [Byte.x00; Byte.x00; Byte.x00; Byte.x01]; [Byte.xaa]; [Byte.x02]])
           (ErrIO 3) eq_refl eq_refl).
Defined.

(** X14.  A stream of complete records followed by a record whose value is
    cut short, with at least one value byte present: [Read] returns the
    complete records, in order, together with [ErrTLVRead]; the incomplete
    record is not in the list. *)
Theorem Read_partial_list_on_short_value (fuel : nat) (objs : list object)
    (t : byte) (l : Z) (part : list byte) :
  (length objs < fuel)%nat ->
  Forall well_formed objs ->
  0 < len_ part < l ->
  l < 2 ^ 31 ->
  Read fuel
    (bytes.NewBuffer
       (concat (map wire objs) ++ t :: binary.BigEndian_PutUint32 (uint32 l) ++ part)) =
  Ret ((mkList objs, Some ErrTLVRead), bytes.NewBuffer []).
Proof.
  intros Hf Hw Hp Hl.
  rewrite (Read_wire_then_failure fuel objs _
             (Some (mkObject t l (part ++ repeat Byte.x00 (Z.to_nat l - length part))))
             ErrTLVRead (bytes.NewBuffer []));
    [reflexivity | exact Hf | exact Hw |
     apply ReadObject_Buffer_short_value; [lia | exact Hp | exact Hl]].
Qed.

Lemma Read_partial_list_on_short_value_witness :
  (length [mkObject Byte.x01 1 [Byte.xaa]] < 2)%nat /\
  Forall well_formed [mkObject Byte.x01 1 [Byte.xaa]] /\
  0 < len_ [Byte.xbb] < 2 /\
  2 < 2 ^ 31 /\
  Read 2
    (bytes.NewBuffer
       (concat (map wire [mkObject Byte.x01 1 [Byte.xaa]]) ++
        Byte.x02 :: binary.BigEndian_PutUint32 (uint32 2) ++ [Byte.xbb])) =
  Ret ((mkList [mkObject Byte.x01 1 [Byte.xaa]], Some ErrTLVRead), bytes.NewBuffer []).
Proof.
  assert (Hw : Forall well_formed [mkObject Byte.x01 1 [Byte.xaa]]).
  { repeat constructor; unfold int32_typed, len_; simpl; lia. }
  assert (Hp : 0 < len_ [Byte.xbb] < 2) by (unfold len_; simpl; lia).
  split; [simpl; lia|]. split; [exact Hw|]. split; [exact Hp|]. split; [lia|].
  exact (Read_partial_list_on_short_value 2 [mkObject Byte.x01 1 [Byte.xaa]]
           Byte.x02 2 [Byte.xbb] ltac:(simpl; lia) Hw Hp ltac:(lia)).
Defined.

(** X15.  A stream of complete records that ends right after a header
    announcing a value of one byte or more: [Read] returns the complete
    records and a nil error, as it does for the stream without that
    header. *)
Theorem Read_header_without_value (fuel : nat) (objs : list object) (t : byte) (l : Z) :
  (length objs < fuel)%nat ->
  Forall well_formed objs ->
  0 < l < 2 ^ 31 ->
  Read fuel
    (bytes.NewBuffer
       (concat (map wire objs) ++ t :: binary.BigEndian_PutUint32 (uint32 l))) =
    Ret ((mkList objs, None), bytes.NewBuffer []) /\
  Read fuel (bytes.NewBuffer (concat (map wire objs))) =
    Ret ((mkList objs, None), bytes.NewBuffer []).
Proof.
  intros Hf Hw Hl. split.
  - rewrite (Read_wire_then_failure fuel objs _ None EOF (bytes.NewBuffer []));
      [reflexivity | exact Hf | exact Hw |
       apply ReadObject_Buffer_missing_value; [lia | exact Hl]].
  - apply Read_clean_end; assumption.
Qed.

Lemma Read_header_without_value_witness :
  (length [mkObject Byte.x01 1 [Byte.xaa]] < 2)%nat /\
  Forall well_formed [mkObject Byte.x01 1 [Byte.xaa]] /\
  0 < 7 < 2 ^ 31 /\
  Read 2
    (bytes.NewBuffer
       (concat (map wire [mkObject Byte.x01 1 [Byte.xaa]]) ++
        Byte.x02 :: binary.BigEndian_PutUint32 (uint32 7))) =
    Ret ((mkList [mkObject Byte.x01 1 [Byte.xaa]], None), bytes.NewBuffer []) /\
  Read 2 (bytes.NewBuffer (concat (map wire [mkObject Byte.x01 1 [Byte.xaa]]))) =
    Ret ((mkList [mkObject Byte.x01 1 [Byte.xaa]], None), bytes.NewBuffer []).
Proof.
  assert (Hw : Forall well_formed [mkObject Byte.x01 1 [Byte.xaa]]).
  { repeat constructor; unfold int32_typed, len_; simpl; lia. }
  split; [simpl; lia|]. split; [exact Hw|]. split; [lia|].
  exact (Read_header_without_value 2 [mkObject Byte.x01 1 [Byte.xaa]] Byte.x02 7
           ltac:(simpl; lia) Hw ltac:(lia)).
Defined.

Lemma Read_loop_inv {R} `{Reader R} fuel n tl (r r' : R) tl' err :
  Read_loop fuel n tl r = Ret ((tl', err), r') ->
  Forall well_formed (objects tl) ->
  Forall well_formed (objects tl') /\ err <> None.
Proof.
  revert tl r. induction n as [|n IH]; intros tl r E Hw; [discriminate|].
  rewrite Read_loop_eq in E. unfold bind in E.
  destruct (ReadObject fuel r) as [[[x [e|]] r1]| |] eqn:Er; try discriminate.
  - inversion E; subst. split; [exact Hw | discriminate].
  - destruct x as [o|]; [|discriminate].
    apply (IH _ _ E). unfold PushBack. cbn [objects].
    apply Forall_app. split; [exact Hw|].
    constructor; [exact (ReadObject_well_formed _ _ _ _ _ Er) | constructor].
Qed.

(** X16.  Whatever the reader does, a call of [Read] that returns never
    returns [io.EOF] as its error, and every record of the list it returns
    keeps the data invariant. *)
Theorem Read_results {R} `{Reader R} (fuel : nat) (r r' : R) (tl : List)
    (err : option error) :
  Read fuel r = Ret ((tl, err), r') ->
  err <> Some EOF /\ Forall well_formed (objects tl).
Proof.
  unfold Read, bind. intros E.
  destruct (Read_loop fuel fuel NewList r) as [[[tl0 err0] r0]| |] eqn:El;
    try discriminate.
  destruct (Read_loop_inv _ _ _ _ _ _ _ El (Forall_nil _)) as [Hw _].
  destruct (err_is err0 EOF) eqn:Ee; unfold ret in E; inversion E; subst.
  - split; [discriminate | exact Hw].
  - split; [|exact Hw]. intros ->. discriminate.
Qed.

Lemma Read_results_witness :
  Read 2 (bytes.NewBuffer
            [Byte.x01; Byte.x00; Byte.x00; Byte.x00; Byte.x01; Byte.xaa; Byte.x02; Byte.x00]) =
    Ret ((mkList [mkObject Byte.x01 1 [Byte.xaa]], Some ErrUnexpectedEOF),
         bytes.NewBuffer []) /\
  Some ErrUnexpectedEOF <> Some EOF /\
  Forall well_formed (objects (mkList [mkObject Byte.x01 1 [Byte.xaa]])).
Proof.
  split; [reflexivity|].
  exact (Read_results 2
           (bytes.NewBuffer
              [Byte.x01; Byte.x00; Byte.x00; Byte.x00; Byte.x01; Byte.xaa; Byte.x02; Byte.x00])
           (bytes.NewBuffer []) (mkList [mkObject Byte.x01 1 [Byte.xaa]])
           (Some ErrUnexpectedEOF) eq_refl).
Defined.

Lemma Read_loop_Buffer_inv fuel n tl data tl' err b :
  Read_loop fuel n tl (bytes.NewBuffer data) = Ret ((tl', err), b) ->
  exists objs rest,
    objects tl' = objects tl ++ objs /\
    Forall well_formed objs /\
    data = concat (map wire objs) ++ rest.
Proof.
  revert tl data. induction n as [|n IH]; intros tl data E; [discriminate|].
  rewrite Read_loop_eq in E. unfold bind in E.
  destruct (ReadObject fuel (bytes.NewBuffer data)) as [[[x [e|]] r1]| |] eqn:Er;
    try discriminate.
  - inversion E; subst. exists [], data. rewrite app_nil_r. auto.
  - destruct x as [o|]; [|discriminate].
    destruct (ReadObject_Buffer_inv _ _ _ _ Er) as (rest1 & -> & ->).
    destruct (IH _ _ E) as (objs & rest & Ho & Hw & ->).
    exists (o :: objs), rest.
    split; [rewrite Ho; unfold PushBack; cbn [objects]; rewrite <- app_assoc; reflexivity|].
    split; [constructor; [exact (ReadObject_well_formed _ _ _ _ _ Er) | exact Hw]|].
    cbn [map concat]. rewrite <- app_assoc. reflexivity.
Qed.

(** X17.  The list [Read] returns, with or without an error, is read off
    the front of the input: writing that list gives a prefix of the bytes
    read. *)
Theorem Read_then_Write (fuel : nat) (data : list byte) (tl : List)
    (err : option error) (b : bytes.Buffer) :
  Read fuel (bytes.NewBuffer data) = Ret ((tl, err), b) ->
  exists written rest,
    TList.Write tl (bytes.NewBuffer []) = Ret (None, bytes.NewBuffer written) /\
    data = written ++ rest.
Proof.
  unfold Read, bind. intros E.
  destruct (Read_loop fuel fuel NewList (bytes.NewBuffer data))
    as [[[tl0 err0] r0]| |] eqn:El; try discriminate.
  destruct (Read_loop_Buffer_inv _ _ _ _ _ _ _ El) as (objs & rest & Ho & Hw & Hd).
  cbn [objects NewList app] in Ho.
  assert (tl = tl0) as ->
    by (destruct (err_is err0 EOF); unfold ret in E; inversion E; reflexivity).
  exists (concat (map wire objs)), rest. split; [|exact Hd].
  unfold TList.Write. rewrite Ho. apply (Write_loop_Buffer objs [] Hw).
Qed.

Lemma Read_then_Write_witness :
  Read 2 (bytes.NewBuffer
            [Byte.x01; Byte.x00; Byte.x00; Byte.x00; Byte.x01; Byte.xaa; Byte.x02; Byte.x00]) =
    Ret ((mkList [mkObject Byte.x01 1 [Byte.xaa]], Some ErrUnexpectedEOF),
         bytes.NewBuffer []) /\
  exists written rest,
    TList.Write (mkList [mkObject Byte.x01 1 [Byte.xaa]]) (bytes.NewBuffer []) =
      Ret (None, bytes.NewBuffer written) /\
    [Byte.x01; Byte.x00; Byte.x00; Byte.x00; Byte.x01; Byte.xaa; Byte.x02; Byte.x00] =
      written ++ rest.
Proof.
  split; [reflexivity|].
  exact (Read_then_Write 2
           [Byte.x01; Byte.x00; Byte.x00; Byte.x00; Byte.x01; Byte.xaa; Byte.x02; Byte.x00]
           (mkList [mkObject Byte.x01 1 [Byte.xaa]]) (Some ErrUnexpectedEOF)
           (bytes.NewBuffer []) eq_refl).
Defined.

(** ** More on lookup, insertion and removal *)

Lemma Get_loop_app l1 l2 t :
  TList.Get_loop (l1 ++ l2) t =
  match TList.Get_loop l1 t with
  | (Some x, _) => (Some x, None)
  | (None, _) => TList.Get_loop l2 t
  end.
Proof.
  induction l1 as [|x xs IH]; simpl; [reflexivity|].
  destruct (Byte.eqb (Type_ x) t); [reflexivity | exact IH].
Qed.

Lemma filter_partition_length {A} (f : A -> bool) l :
  (length (filter f l) + length (filter (fun x => negb (f x)) l) = length l)%nat.
Proof.
  induction l as [|x xs IH]; simpl; [reflexivity|].
  destruct (f x); simpl; lia.
Qed.

Lemma filter_twice_none {A} (f : A -> bool) l :
  filter f (filter (fun x => negb (f x)) l) = [].
Proof.
  induction l as [|x xs IH]; simpl; [reflexivity|].
  destruct (f x) eqn:E; simpl; [exact IH|]. rewrite E. exact IH.
Qed.

Lemma filter_twice_same {A} (f : A -> bool) l :
  filter f (filter f l) = filter f l.
Proof.
  induction l as [|x xs IH]; simpl; [reflexivity|].
  destruct (f x) eqn:E; simpl; [|exact IH]. rewrite E, IH. reflexivity.
Qed.

Lemma filter_commute {A} (f g : A -> bool) l :
  filter f (filter g l) = filter g (filter f l).
Proof.
  induction l as [|x xs IH]; simpl; [reflexivity|].
  destruct (f x) eqn:Ef, (g x) eqn:Eg; simpl; rewrite ?Ef, ?Eg, IH; reflexivity.
Qed.

Lemma Remove_eq tl t :
  TList.Remove tl t =
  (len_ (filter (fun e => Byte.eqb (typ e) t) (objects tl)),
   mkList (filter (fun e => negb (Byte.eqb (typ e) t)) (objects tl))).
Proof. unfold TList.Remove, Type_. rewrite remove_loop_filter. reflexivity. Qed.

Lemma RemoveObject_eq tl obj :
  TList.RemoveObject tl obj =
  (len_ (filter (fun e => Equal (Some e) obj) (objects tl)),
   mkList (filter (fun e => negb (Equal (Some e) obj)) (objects tl))).
Proof. unfold TList.RemoveObject. rewrite remove_loop_filter. reflexivity. Qed.

Lemma GetAll_eq tl t :
  TList.GetAll tl t = filter (fun e => Byte.eqb (typ e) t) (objects tl).
Proof. unfold TList.GetAll. apply GetAll_fold. Qed.

Lemma Get_loop_other es t t' :
  t' <> t ->
  TList.Get_loop (filter (fun e => negb (Byte.eqb (typ e) t)) es) t' =
  TList.Get_loop es t'.
Proof.
  intros Hne. induction es as [|x xs IH]; simpl; [reflexivity|]. unfold Type_.
  destruct (Byte.eqb (typ x) t) eqn:Et; cbn [negb].
  - apply Byte_eqb_eq in Et.
    destruct (Byte.eqb (typ x) t') eqn:Et'; [|exact IH].
    apply Byte_eqb_eq in Et'. congruence.
  - simpl. unfold Type_. destruct (Byte.eqb (typ x) t'); [reflexivity | exact IH].
Qed.

Lemma Get_loop_none es t :
  filter (fun e => Byte.eqb (typ e) t) es = [] ->
  TList.Get_loop es t = (None, Some ErrTypeNotFound).
Proof.
  induction es as [|x xs IH]; simpl; [reflexivity|]. unfold Type_.
  destruct (Byte.eqb (typ x) t); [discriminate | exact IH].
Qed.

(** X18.  After [AddObject(o)], [GetAll(t)] is what it was, with [o] at the
    end when [o] has type [t]; [Get(t)] is what it was when the list had a
    record of type [t], and otherwise [o] when [o] has type [t]. *)
Theorem lookup_after_AddObject (tl : List) (o : object) (t : byte) :
  TList.GetAll (TList.AddObject tl o) t =
    TList.GetAll tl t ++ (if Byte.eqb (typ o) t then [o] else []) /\
  TList.Get (TList.AddObject tl o) t =
    match TList.Get tl t with
    | (Some x, _) => (Some x, None)
    | (None, _) =>
        if Byte.eqb (typ o) t then (Some o, None) else (None, Some ErrTypeNotFound)
    end.
Proof.
  split.
  - rewrite !GetAll_eq. unfold TList.AddObject, PushBack. cbn [objects].
    rewrite filter_app. reflexivity.
  - unfold TList.Get, TList.AddObject, PushBack. cbn [objects].
    rewrite Get_loop_app. reflexivity.
Qed.

(** X19.  [Add(t, v)] with a value that fits an [int32] length appends the
    record of type [t], length [len(v)] and value [v]: it is the last
    record [GetAll(t)] then returns, and the one [Get(t)] returns when the
    list had no record of type [t]. *)
Theorem Add_then_lookup (tl : List) (t : byte) (v : list byte) :
  len_ v < 2 ^ 31 ->
  exists tl',
    TList.Add tl t v = Ret tl' /\
    objects tl' = objects tl ++ [mkObject t (len_ v) v] /\
    TList.GetAll tl' t = TList.GetAll tl t ++ [mkObject t (len_ v) v] /\
    (TList.GetAll tl t = [] -> TList.Get tl' t = (Some (mkObject t (len_ v) v), None)).
Proof.
  intros Hv. exists (TList.AddObject tl (mkObject t (len_ v) v)).
  split; [unfold TList.Add; rewrite New_in_range by exact Hv; reflexivity|].
  split; [reflexivity|].
  split.
  - rewrite !GetAll_eq. unfold TList.AddObject, PushBack. cbn [objects].
    rewrite filter_app. cbn [filter typ].
    rewrite (proj2 (Byte_eqb_eq t t) eq_refl). reflexivity.
  - intros Hnone. rewrite GetAll_eq in Hnone.
    unfold TList.Get, TList.AddObject, PushBack. cbn [objects].
    rewrite Get_loop_app, (Get_loop_none _ _ Hnone).
    cbn [TList.Get_loop Type_ typ].
    rewrite (proj2 (Byte_eqb_eq t t) eq_refl). reflexivity.
Qed.

Lemma Add_then_lookup_witness :
  len_ [Byte.xaa] < 2 ^ 31 /\
  exists tl',
    TList.Add (mkList [mkObject Byte.x02 0 []]) Byte.x01 [Byte.xaa] = Ret tl' /\
    objects tl' =
      objects (mkList [mkObject Byte.x02 0 []]) ++ [mkObject Byte.x01 (len_ [Byte.xaa]) [Byte.xaa]] /\
    TList.GetAll tl' Byte.x01 =
      TList.GetAll (mkList [mkObject Byte.x02 0 []]) Byte.x01 ++
      [mkObject Byte.x01 (len_ [Byte.xaa]) [Byte.xaa]] /\
    (TList.GetAll (mkList [mkObject Byte.x02 0 []]) Byte.x01 = [] ->
     TList.Get tl' Byte.x01 = (Some (mkObject Byte.x01 (len_ [Byte.xaa]) [Byte.xaa]), None)).
Proof.
  assert (Hv : len_ [Byte.xaa] < 2 ^ 31) by (unfold len_; simpl; lia).
  split; [exact Hv|].
  exact (Add_then_lookup (mkList [mkObject Byte.x02 0 []]) Byte.x01 [Byte.xaa] Hv).
Defined.

(** X20.  After [Remove(t)] the list has no record of type [t]: [Get(t)]
    returns [ErrTypeNotFound] and [GetAll(t)] is empty; for every other
    type, [Get] and [GetAll] return what they returned before. *)
Theorem lookup_after_Remove (tl : List) (t t' : byte) :
  t' <> t ->
  TList.Get (snd (TList.Remove tl t)) t = (None, Some ErrTypeNotFound) /\
  TList.GetAll (snd (TList.Remove tl t)) t = [] /\
  TList.Get (snd (TList.Remove tl t)) t' = TList.Get tl t' /\
  TList.GetAll (snd (TList.Remove tl t)) t' = TList.GetAll tl t'.
Proof.
  intros Hne. rewrite Remove_eq. cbn [snd]. rewrite !GetAll_eq.
  unfold TList.Get. cbn [objects].
  assert (Hnone : filter (fun e => Byte.eqb (typ e) t)
                    (filter (fun e => negb (Byte.eqb (typ e) t)) (objects tl)) = [])
    by apply (filter_twice_none (fun e => Byte.eqb (typ e) t)).
  split; [apply Get_loop_none, Hnone|].
  split; [exact Hnone|].
  split; [apply Get_loop_other, Hne|].
  rewrite filter_commute. clear Hnone.
  induction (objects tl) as [|x xs IH]; simpl; [reflexivity|].
  destruct (Byte.eqb (typ x) t') eqn:Et'; [|exact IH].
  simpl. destruct (Byte.eqb (typ x) t) eqn:Et.
  - apply Byte_eqb_eq in Et, Et'. congruence.
  - cbn [negb]. rewrite IH. reflexivity.
Qed.

Lemma lookup_after_Remove_witness :
  Byte.x02 <> Byte.x01 /\
  TList.Get (snd (TList.Remove
                    (mkList [mkObject Byte.x01 1 [Byte.xaa]; mkObject Byte.x02 0 []])
                    Byte.x01)) Byte.x01 = (None, Some ErrTypeNotFound) /\
  TList.GetAll (snd (TList.Remove
                       (mkList [mkObject Byte.x01 1 [Byte.xaa]; mkObject Byte.x02 0 []])
                       Byte.x01)) Byte.x01 = [] /\
  TList.Get (snd (TList.Remove
                    (mkList [mkObject Byte.x01 1 [Byte.xaa]; mkObject Byte.x02 0 []])
                    Byte.x01)) Byte.x02 =
    TList.Get (mkList [mkObject Byte.x01 1 [Byte.xaa]; mkObject Byte.x02 0 []]) Byte.x02 /\
  TList.GetAll (snd (TList.Remove
                       (mkList [mkObject Byte.x01 1 [Byte.xaa]; mkObject Byte.x02 0 []])
                       Byte.x01)) Byte.x02 =
    TList.GetAll (mkList [mkObject Byte.x01 1 [Byte.xaa]; mkObject Byte.x02 0 []]) Byte.x02.
Proof.
  assert (Hne : Byte.x02 <> Byte.x01) by discriminate.
  split; [exact Hne|].
  exact (lookup_after_Remove
           (mkList [mkObject Byte.x01 1 [Byte.xaa]; mkObject Byte.x02 0 []])
           Byte.x01 Byte.x02 Hne).
Defined.

(** X21.  The count [Remove(t)] returns is the number of records
    [GetAll(t)] returned before; with the records left it adds up to the
    number of records before; and a second [Remove(t)] returns 0 and
    changes nothing. *)
Theorem Remove_counts_and_is_idempotent (tl : List) (t : byte) :
  fst (TList.Remove tl t) = len_ (TList.GetAll tl t) /\
  fst (TList.Remove tl t) + len_ (objects (snd (TList.Remove tl t))) =
    len_ (objects tl) /\
  TList.Remove (snd (TList.Remove tl t)) t = (0, snd (TList.Remove tl t)).
Proof.
  rewrite !Remove_eq, GetAll_eq. cbn [fst snd objects].
  split; [reflexivity|]. split.
  - unfold len_.
    pose proof (filter_partition_length (fun e => Byte.eqb (typ e) t) (objects tl)).
    lia.
  - rewrite (filter_twice_none (fun e => Byte.eqb (typ e) t)).
    rewrite (filter_twice_same (fun e => negb (Byte.eqb (typ e) t))).
    reflexivity.
Qed.

(** X22.  [RemoveObject] with a nil TLV removes nothing and returns 0. *)
Theorem RemoveObject_nil (tl : List) :
  TList.RemoveObject tl None = (0, tl).
Proof.
  rewrite RemoveObject_eq. cbn [Equal is_nil negb].
  assert (E1 : forall l : list object, filter (fun _ => false) l = [])
    by (induction l; simpl; auto).
  assert (E2 : forall l : list object, filter (fun _ => true) l = l)
    by (induction l as [|x xs IH]; simpl; [|rewrite IH]; reflexivity).
  rewrite E1, E2. destruct tl; reflexivity.
Qed.

(** X23.  After [RemoveObject(r)] no record equal to [r] is left; its
    count and the records left add up to the number of records before; it
    removes no more than [Remove] of the type of [r]; and a second
    [RemoveObject(r)] returns 0 and changes nothing. *)
Theorem RemoveObject_removes_every_copy (tl : List) (r : object) :
  ~ In r (objects (snd (TList.RemoveObject tl (Some r)))) /\
  fst (TList.RemoveObject tl (Some r)) +
    len_ (objects (snd (TList.RemoveObject tl (Some r)))) = len_ (objects tl) /\
  0 <= fst (TList.RemoveObject tl (Some r)) <= fst (TList.Remove tl (typ r)) /\
  TList.RemoveObject (snd (TList.RemoveObject tl (Some r))) (Some r) =
    (0, snd (TList.RemoveObject tl (Some r))).
Proof.
  rewrite !RemoveObject_eq, Remove_eq. cbn [fst snd objects].
  split.
  - intros Hin. apply filter_In in Hin. destruct Hin as [_ Hne].
    rewrite (proj2 (Equal_eq r r) eq_refl) in Hne. discriminate.
  - split.
    + unfold len_.
      pose proof (filter_partition_length (fun e => Equal (Some e) (Some r)) (objects tl)).
      lia.
    + split.
      * unfold len_. split; [lia|]. apply inj_le.
        induction (objects tl) as [|x xs IH]; cbn [filter length]; [lia|].
        destruct (Equal (Some x) (Some r)) eqn:E.
        -- apply Equal_iff in E. destruct E as (Et & _).
           rewrite (proj2 (Byte_eqb_eq _ _) Et). cbn [length]. lia.
        -- destruct (Byte.eqb (typ x) (typ r)); cbn [length]; lia.
      * rewrite (filter_twice_none (fun e => Equal (Some e) (Some r))).
        rewrite (filter_twice_same (fun e => negb (Equal (Some e) (Some r)))).
        reflexivity.
Qed.

(** X24.  For a list of fewer than 2^31 - 1 records, [Length] is the number
    of records; it grows by one with [AddObject], and [Remove] lowers it by
    the count [Remove] returns. *)
Theorem Length_counts_records (tl : List) (o : object) (t : byte) :
  len_ (objects tl) + 1 < 2 ^ 31 ->
  TList.Length tl = len_ (objects tl) /\
  TList.Length (TList.AddObject tl o) = TList.Length tl + 1 /\
  TList.Length (snd (TList.Remove tl t)) = TList.Length tl - fst (TList.Remove tl t).
Proof.
  intros Hl. rewrite Remove_eq. cbn [fst snd].
  unfold TList.Length, TList.AddObject, PushBack. cbn [objects].
  pose proof (filter_partition_length (fun e => Byte.eqb (typ e) t) (objects tl)) as Hp.
  unfold len_ in *. rewrite length_app. cbn [length].
  rewrite !int32_small by lia. lia.
Qed.

Lemma Length_counts_records_witness :
  len_ (objects (mkList [mkObject Byte.x01 1 [Byte.xaa]; mkObject Byte.x02 0 []])) + 1 < 2 ^ 31 /\
  TList.Length (mkList [mkObject Byte.x01 1 [Byte.xaa]; mkObject Byte.x02 0 []]) =
    len_ (objects (mkList [mkObject Byte.x01 1 [Byte.xaa]; mkObject Byte.x02 0 []])) /\
  TList.Length (TList.AddObject
                  (mkList [mkObject Byte.x01 1 [Byte.xaa]; mkObject Byte.x02 0 []])
                  (mkObject Byte.x03 0 [])) =
    TList.Length (mkList [mkObject Byte.x01 1 [Byte.xaa]; mkObject Byte.x02 0 []]) + 1 /\
  TList.Length (snd (TList.Remove
                       (mkList [mkObject Byte.x01 1 [Byte.xaa]; mkObject Byte.x02 0 []])
                       Byte.x01)) =
    TList.Length (mkList [mkObject Byte.x01 1 [Byte.xaa]; mkObject Byte.x02 0 []]) -
    fst (TList.Remove (mkList [mkObject Byte.x01 1 [Byte.xaa]; mkObject Byte.x02 0 []])
           Byte.x01).
Proof.
  assert (Hl : len_ (objects (mkList [mkObject Byte.x01 1 [Byte.xaa];
                                      mkObject Byte.x02 0 []])) + 1 < 2 ^ 31)
    by (unfold len_; simpl; lia).
  split; [exact Hl|].
  exact (Length_counts_records
           (mkList [mkObject Byte.x01 1 [Byte.xaa]; mkObject Byte.x02 0 []])
           (mkObject Byte.x03 0 []) Byte.x01 Hl).
Defined.

(** X25.  [Get(t)] returns the first of the records [GetAll(t)] returns,
    and [ErrTypeNotFound] exactly when [GetAll(t)] is empty. *)
Theorem Get_is_first_of_GetAll (tl : List) (t : byte) :
  TList.Get tl t =
  match TList.GetAll tl t with
  | x :: _ => (Some x, None)
  | [] => (None, Some ErrTypeNotFound)
  end.
Proof.
  rewrite GetAll_eq. unfold TList.Get.
  induction (objects tl) as [|x xs IH]; simpl; [reflexivity|]. unfold Type_.
  destruct (Byte.eqb (typ x) t); [reflexivity | exact IH].
Qed.


